(** * The in-memory user store of [user_management_system.py]

    A shallow embedding of the [User] dataclass, of the [UserDatabase]
    class (its constructor, [_get_next_srno], [add_user], [find_user],
    [update_user], [delete_user], [display_all] and [display_user]) and of
    the shell ([get_user_input], [get_search_criteria], [main]), followed
    by the properties of the store and of the shell.

    Python objects are mutable and shared: the list [entries] and the
    dictionary [srno_index] hold references to the same [User] objects.
    The embedding therefore keeps an object store ([heap]) and lets both
    views hold locations into it.

    Modelling limits, stated once. Text is ASCII ([str.lower], [str.strip]
    and [int] are modelled on ASCII characters only). [int] applies the
    interpreter's default limit of 4300 digits; the integers that records
    hold are taken to be within it, so that [str] of them does not raise.
    Attribute access is modelled for the attributes of the instance: a
    name that begins with two underscores may denote an attribute of the
    class ([__hash__], [__module__], [__class__], [__dataclass_fields__],
    ...), on which Python's [getattr], [setattr] and [asdict] differ from
    the ones here, and the theorems that depend on what such a name denotes
    assume [class_name] false for it. Calls to [print] inside the methods
    that change the store are left out, since they change neither the
    store nor a returned value. *)

From Stdlib Require Import Ascii String ZArith.
From stdpp Require Import gmap strings list fin_maps pretty.

Open Scope string_scope.
Open Scope list_scope.
Open Scope Z_scope.

(** ** Python values *)

(** The values that reach the store: [int] and [str]. *)
Inductive pyval :=
  | VInt (z : Z)
  | VStr (s : string).

#[global] Instance pyval_eq_dec : EqDecision pyval.
Proof. solve_decision. Defined.

(** Exceptions that the store's methods can let escape. *)
Inductive exn := ValueError | KeyError.

(** What a call produces: a returned value or a raised exception. *)
Inductive outcome (A : Type) :=
  | Returns (a : A)
  | Raises (e : exn).
Arguments Returns {A} a.
Arguments Raises {A} e.

(** ** Builtins: [str], [str.lower], [int] *)

(** [str(v)] *)
Definition py_str (v : pyval) : string :=
  match v with
  | VInt z => pretty z
  | VStr s => s
  end.

Definition lower_ascii (c : ascii) : ascii :=
  let n := nat_of_ascii c in
  if ((65 <=? n) && (n <=? 90))%nat then ascii_of_nat (n + 32) else c.

(** [s.lower()] *)
Fixpoint lower (s : string) : string :=
  match s with
  | EmptyString => EmptyString
  | String c s' => String (lower_ascii c) (lower s')
  end.

(** Whitespace that [str.strip] strips from ASCII text: tab to carriage
    return, the four separators 0x1c..0x1f, and the space. *)
Definition is_space (c : ascii) : bool :=
  let n := nat_of_ascii c in
  (((9 <=? n) && (n <=? 13)) || ((28 <=? n) && (n <=? 32)))%nat.

(** Whitespace that [int] skips around the number in ASCII text: tab to
    carriage return, and the space. The separators 0x1c..0x1f are not
    skipped: [int] raises [ValueError] on them. *)
Definition int_space (c : ascii) : bool :=
  let n := nat_of_ascii c in
  (((9 <=? n) && (n <=? 13)) || (n =? 32))%nat.

Definition digit_of (c : ascii) : option Z :=
  let n := Z.of_nat (nat_of_ascii c) in
  if (48 <=? n) && (n <=? 57) then Some (n - 48) else None.

Fixpoint lstrip (cs : list ascii) : list ascii :=
  match cs with
  | c :: cs' => if is_space c then lstrip cs' else cs
  | [] => []
  end.

Definition strip (cs : list ascii) : list ascii :=
  rev (lstrip (rev (lstrip cs))).

Fixpoint int_lstrip (cs : list ascii) : list ascii :=
  match cs with
  | c :: cs' => if int_space c then int_lstrip cs' else cs
  | [] => []
  end.

Definition int_strip (cs : list ascii) : list ascii :=
  rev (int_lstrip (rev (int_lstrip cs))).

(** Decimal digits, where single underscores may sit between two digits.
    [after_digit] tells whether the previous character was a digit. *)
Fixpoint digits (acc : Z) (after_digit : bool) (cs : list ascii) : option Z :=
  match cs with
  | [] => if after_digit then Some acc else None
  | c :: cs' =>
      match digit_of c with
      | Some d => digits (10 * acc + d) true cs'
      | None =>
          if Ascii.eqb c "_"%char && after_digit
          then digits acc false cs'
          else None
      end
  end.

(** The interpreter's default for [sys.int_max_str_digits]: [int] raises
    [ValueError] on text with more decimal digits. *)
Definition int_max_str_digits : Z := 4300.

Definition digit_count (cs : list ascii) : Z :=
  Z.of_nat (length (filter (λ c, is_Some (digit_of c)) cs)).

Definition int_of_str (s : string) : option Z :=
  let cs := int_strip (list_ascii_of_string s) in
  if int_max_str_digits <? digit_count cs then None
  else
    match cs with
    | c :: cs' =>
        if Ascii.eqb c "-"%char then Z.opp <$> digits 0 false cs'
        else if Ascii.eqb c "+"%char then digits 0 false cs'
        else digits 0 false (c :: cs')
    | [] => None
    end.

(** [int(v)]: the integer, or [None] where Python raises [ValueError]. *)
Definition py_int (v : pyval) : option Z :=
  match v with
  | VInt z => Some z
  | VStr s => int_of_str s
  end.

(** ** Data model *)

(** The dataclass [User]. Python does not enforce the annotations, so each
    field holds a value; [extra] holds the attributes that [setattr] adds
    to an instance under a name that is not a declared field. *)
Record User := mkUser {
  srno : pyval;
  name : pyval;
  age : pyval;
  gender : pyval;
  occupation : pyval;
  extra : gmap string pyval
}.

(** [getattr(u, key, dflt)], for a name that is not one of the class: the
    attribute of the instance, or the default. (Every attribute of the
    class, such as [__hash__] or [__module__], has a name that begins with
    two underscores; Python finds those too.) *)
Definition getattr (u : User) (key : string) (dflt : pyval) : pyval :=
  if decide (key = "srno") then srno u
  else if decide (key = "name") then name u
  else if decide (key = "age") then age u
  else if decide (key = "gender") then gender u
  else if decide (key = "occupation") then occupation u
  else default dflt (extra u !! key).

(** [setattr(u, field, val)]: a name that is not a declared field becomes
    a new attribute of the instance. (Python refuses to assign a text or a
    number to [__class__], [__dict__] and [__weakref__]; names that begin
    with two underscores are outside what this definition models.) *)
Definition setattr (u : User) (field : string) (val : pyval) : User :=
  if decide (field = "srno")
  then mkUser val (name u) (age u) (gender u) (occupation u) (extra u)
  else if decide (field = "name")
  then mkUser (srno u) val (age u) (gender u) (occupation u) (extra u)
  else if decide (field = "age")
  then mkUser (srno u) (name u) val (gender u) (occupation u) (extra u)
  else if decide (field = "gender")
  then mkUser (srno u) (name u) (age u) val (occupation u) (extra u)
  else if decide (field = "occupation")
  then mkUser (srno u) (name u) (age u) (gender u) val (extra u)
  else mkUser (srno u) (name u) (age u) (gender u) (occupation u)
              (<[field := val]> (extra u)).

(** The [__eq__] that [@dataclass] generates: the tuples of the five
    declared fields are compared. *)
Definition user_eqb (a b : User) : bool :=
  bool_decide (srno a = srno b) && bool_decide (name a = name b)
  && bool_decide (age a = age b) && bool_decide (gender a = gender b)
  && bool_decide (occupation a = occupation b).

(** References to [User] objects are positions in the object store. *)
Abbreviation loc := nat.

(** [UserDatabase]: the two views, over the store of the objects they
    refer to. *)
Record UserDatabase := mkDB {
  heap : list User;
  entries : list loc;
  srno_index : gmap Z loc
}.

(** [UserDatabase.__init__] *)
Definition init : UserDatabase := mkDB [] [] ∅.

Definition _get_next_srno (db : UserDatabase) : Z :=
  Z.of_nat (length (entries db)) + 1.

(** [add_user]: the signature is [-> None], and both exits return [None];
    the result is modelled as an optional reference, which is never set. *)
Definition add_user (db : UserDatabase) (name : string) (age : pyval)
    (gender occupation : string) : UserDatabase * option loc :=
  match py_int age with
  | None => (db, None)
  | Some age_int =>
      let user := mkUser (VInt (_get_next_srno db)) (VStr name) (VInt age_int)
                         (VStr gender) (VStr occupation) ∅ in
      let l := length (heap db) in
      (mkDB (heap db ++ [user]) (entries db ++ [l])
            (<[_get_next_srno db := l]> (srno_index db)), None)
  end.

(** The test of the linear search, for the object at [l]. *)
Definition field_matches (h : list User) (key value : string) (l : loc) : bool :=
  match h !! l with
  | Some entry =>
      bool_decide (lower (py_str (getattr entry key (VStr ""))) = lower value)
  | None => false
  end.

Fixpoint scan (h : list User) (key value : string) (es : list loc) : option loc :=
  match es with
  | [] => None
  | l :: es' => if field_matches h key value l then Some l else scan h key value es'
  end.

(** [find_user] *)
Definition find_user (db : UserDatabase) (key value : string) : option loc :=
  if decide (key = "srno") then
    match py_int (VStr value) with
    | Some srno_val => srno_index db !! srno_val
    | None => None
    end
  else scan (heap db) key value (entries db).

(** The loop of [update_user] over [new_data.items()], on the object at [l]. *)
Fixpoint update_fields (h : list User) (l : loc) (items : list (string * pyval))
    : list User * bool :=
  match items with
  | [] => (h, true)
  | (field, val) :: rest =>
      if decide (field = "age") then
        match py_int val with
        | Some z => update_fields (alter (λ u, setattr u field (VInt z)) l h) l rest
        | None => (h, false)
        end
      else update_fields (alter (λ u, setattr u field val) l h) l rest
  end.

(** [update_user]; [new_data] is the dictionary, as its items in order.
    A [User] object is always true in [if user:], so the test is whether
    [find_user] returned one. *)
Definition update_user (db : UserDatabase) (key value : string)
    (new_data : list (string * pyval)) : UserDatabase * bool :=
  match find_user db key value with
  | Some l =>
      let '(h, ok) := update_fields (heap db) l new_data in
      (mkDB h (entries db) (srno_index db), ok)
  | None => (db, false)
  end.

(** The comparison that [list.remove] makes: identity first, then [==]. *)
Definition same_object (h : list User) (l e : loc) : bool :=
  bool_decide (e = l) ||
  match h !! e, h !! l with
  | Some a, Some b => user_eqb a b
  | _, _ => false
  end.

(** [es.remove(l)]: without the first element that compares equal, or
    [None] where Python raises [ValueError]. *)
Fixpoint list_remove (h : list User) (l : loc) (es : list loc) : option (list loc) :=
  match es with
  | [] => None
  | e :: es' =>
      if same_object h l e then Some es'
      else cons e <$> list_remove h l es'
  end.

(** [del index[key]] *)
Definition dict_del (index : gmap Z loc) (key : pyval) : option (gmap Z loc) :=
  match key with
  | VInt k =>
      match index !! k with
      | Some _ => Some (delete k index)
      | None => None
      end
  | VStr _ => None
  end.

(** [delete_user]. The store is returned as it stands when the call ends,
    also when it ends in an exception. *)
Definition delete_user (db : UserDatabase) (key value : string)
    : UserDatabase * outcome bool :=
  match find_user db key value with
  | Some l =>
      match list_remove (heap db) l (entries db) with
      | None => (db, Raises ValueError)
      | Some es =>
          let db1 := mkDB (heap db) es (srno_index db) in
          match heap db !! l ≫= λ user, dict_del (srno_index db) (srno user) with
          | Some index => (mkDB (heap db) es index, Returns true)
          | None => (db1, Raises KeyError)
          end
      end
  | None => (db, Returns false)
  end.

(** ** Sequences of operations *)

Inductive op :=
  | Create (name : string) (age : pyval) (gender occupation : string)
  | Update (key value : string) (new_data : list (string * pyval))
  | Delete (key value : string).

(** One command of the shell's loop; the loop catches whatever a call
    raises and goes on with the store as the call left it. *)
Definition step (db : UserDatabase) (o : op) : UserDatabase :=
  match o with
  | Create n a g oc => fst (add_user db n a g oc)
  | Update k v nd => fst (update_user db k v nd)
  | Delete k v => fst (delete_user db k v)
  end.

Definition run (ops : list op) : UserDatabase := foldl step init ops.

(** ** Display *)

Definition upper_ascii (c : ascii) : ascii :=
  let n := nat_of_ascii c in
  if ((97 <=? n) && (n <=? 122))%nat then ascii_of_nat (n - 32) else c.

(** [s.capitalize()] *)
Definition capitalize (s : string) : string :=
  match s with
  | EmptyString => EmptyString
  | String c s' => String (upper_ascii c) (lower s')
  end.

(** [s * n] *)
Fixpoint str_mul (s : string) (n : nat) : string :=
  match n with
  | O => ""
  | S n' => s +:+ str_mul s n'
  end.

(** [asdict(user).items()]: the declared fields, in the order of the
    declaration. (It reads the fields from the class; an instance attribute
    [__dataclass_fields__] would shadow them and make it raise, and is
    outside what this definition models.) *)
Definition asdict (u : User) : list (string * pyval) :=
  [("srno", srno u); ("name", name u); ("age", age u);
   ("gender", gender u); ("occupation", occupation u)].

(** [display_user], as the lines it prints. *)
Definition display_user (u : User) : list string :=
  [str_mul "-" 30]
  ++ map (λ kv, capitalize kv.1 +:+ ": " +:+ py_str kv.2) (asdict u)
  ++ [str_mul "-" 30].

(** [display_all], as the lines it prints; the first line of a listing
    starts with a line feed. *)
Definition display_all (db : UserDatabase) : list string :=
  match entries db with
  | [] => ["No users found in database."]
  | _ =>
      [String "010"%char
         ("===== Displaying All " +:+ pretty (length (entries db))
          +:+ " Users =====")]
      ++ flat_map (λ l, from_option display_user [] (heap db !! l)) (entries db)
      ++ [str_mul "=" 43]
  end.

(** ** The interactive shell *)

(** Standard input is the list of the lines still to be read; [input()]
    raises [EOFError] when it is empty. Of the output, the model keeps what
    [main] and [get_search_criteria] report about a command and what the
    display methods print; menus, prompts and the messages printed inside
    [add_user] and [update_user] are left out. *)
Inductive shell_exn :=
  | EOFError
  | StoreError (e : exn).

Inductive notice :=
  | InvalidMenuInput                  (* Invalid input! Please enter a number. *)
  | InvalidInput                      (* Invalid input. *)
  | EntryAdded                        (* Entry successfully added. *)
  | EntryUpdated                      (* Entry successfully updated. *)
  | UpdateFailed                      (* Update failed. Entry not found or invalid data provided. *)
  | EntryDeleted                      (* Entry successfully deleted. *)
  | DeletionFailed                    (* Deletion failed. Entry not found. *)
  | Displayed (lines : list string)   (* the output of display_user *)
  | NoEntryFound                      (* No entry found matching the criteria. *)
  | Listed (lines : list string)      (* the output of display_all *)
  | Goodbye                           (* Exiting User Management System. Goodbye! *)
  | InvalidOption                     (* Invalid option. Please enter a number between 1 and 6. *)
  | Unexpected (e : shell_exn).       (* An unexpected application error occurred: ... *)

(** [s.strip()] *)
Definition str_strip (s : string) : string :=
  string_of_list_ascii (strip (list_ascii_of_string s)).

(** [get_user_input]: four lines, each stripped; [None] is [EOFError]. *)
Definition get_user_input (inp : list string)
    : option (list (string * pyval) * list string) :=
  match inp with
  | n :: a :: g :: o :: rest =>
      Some ([("name", VStr (str_strip n)); ("age", VStr (str_strip a));
             ("gender", VStr (str_strip g)); ("occupation", VStr (str_strip o))],
            rest)
  | _ => None
  end.

Definition options : list string :=
  ["srno"; "name"; "age"; "gender"; "occupation"].

(** [get_search_criteria]: the pair or [None], the input left and what was
    reported; the outer [None] is [EOFError]. *)
Definition get_search_criteria (inp : list string)
    : option (option (string * string) * list string * list notice) :=
  match inp with
  | [] => None
  | c :: rest =>
      match py_int (VStr c) with
      | None => Some (None, rest, [InvalidInput])
      | Some choice =>
          if (1 <=? choice) && (choice <=? Z.of_nat (length options)) then
            let key := options !!! Z.to_nat (choice - 1) in
            match rest with
            | [] => None
            | v :: rest' => Some (Some (key, str_strip v), rest', [])
            end
          else Some (None, rest, [])
      end
  end.

(** [d[k]] for a key that the dictionary holds. *)
Fixpoint dict_get (d : list (string * pyval)) (k : string) : pyval :=
  match d with
  | [] => VStr ""
  | (k', v) :: d' => if decide (k' = k) then v else dict_get d' k
  end.

Inductive status := Running | Exited | EndOfInput.

(** One turn of the loop of [main]: the store and the input it leaves,
    what it reports, and whether the loop goes on. A turn that finds no
    menu choice to read ends the program with [EOFError]; an exception
    inside a command is caught and reported, and the loop goes on. *)
Definition main_turn (db : UserDatabase) (inp : list string)
    : UserDatabase * list string * list notice * status :=
  match inp with
  | [] => (db, [], [], EndOfInput)
  | c :: rest =>
      match py_int (VStr c) with
      | None => (db, rest, [InvalidMenuInput], Running)
      | Some choice =>
          if decide (choice = 1) then
            match get_user_input rest with
            | None => (db, [], [Unexpected EOFError], Running)
            | Some (user_data, rest') =>
                ((add_user db (py_str (dict_get user_data "name"))
                           (dict_get user_data "age")
                           (py_str (dict_get user_data "gender"))
                           (py_str (dict_get user_data "occupation"))).1,
                 rest', [EntryAdded], Running)
            end
          else if decide (choice = 2) then
            match get_search_criteria rest with
            | None => (db, [], [Unexpected EOFError], Running)
            | Some (None, rest', said) => (db, rest', said, Running)
            | Some (Some (key, value), rest', said) =>
                match get_user_input rest' with
                | None => (db, [], said ++ [Unexpected EOFError], Running)
                | Some (new_data, rest'') =>
                    let r := update_user db key value new_data in
                    (r.1, rest'',
                     said ++ [if r.2 then EntryUpdated else UpdateFailed],
                     Running)
                end
            end
          else if decide (choice = 3) then
            match get_search_criteria rest with
            | None => (db, [], [Unexpected EOFError], Running)
            | Some (None, rest', said) => (db, rest', said, Running)
            | Some (Some (key, value), rest', said) =>
                let r := delete_user db key value in
                (r.1, rest',
                 said ++ [match r.2 with
                          | Returns true => EntryDeleted
                          | Returns false => DeletionFailed
                          | Raises e => Unexpected (StoreError e)
                          end],
                 Running)
            end
          else if decide (choice = 4) then
            match get_search_criteria rest with
            | None => (db, [], [Unexpected EOFError], Running)
            | Some (None, rest', said) => (db, rest', said, Running)
            | Some (Some (key, value), rest', said) =>
                (db, rest',
                 said ++ [match find_user db key value ≫= λ l, heap db !! l with
                          | Some user => Displayed (display_user user)
                          | None => NoEntryFound
                          end],
                 Running)
            end
          else if decide (choice = 5) then
            (db, rest, [Listed (display_all db)], Running)
          else if decide (choice = 6) then
            (db, rest, [Goodbye], Exited)
          else (db, rest, [InvalidOption], Running)
      end
  end.

(** The loop of [main], for at most [fuel] turns. *)
Fixpoint main_loop (fuel : nat) (db : UserDatabase) (inp : list string)
    : UserDatabase * list notice * status :=
  match fuel with
  | O => (db, [], Running)
  | S fuel' =>
      let '(db', inp', said, st) := main_turn db inp in
      match st with
      | Running =>
          let '(db'', said', st') := main_loop fuel' db' inp' in
          (db'', said ++ said', st')
      | _ => (db', said, st)
      end
  end.

(** [main]: every turn but the last reads at least one line, so one turn
    more than there are lines is enough. *)
Definition main (inp : list string) : UserDatabase * list notice * status :=
  main_loop (S (length inp)) init inp.

(** ** Vocabulary of the properties *)

(** The fields that the dataclass declares. *)
Definition declared_fields : list string :=
  ["srno"; "name"; "age"; "gender"; "occupation"].


(** The identifiers of the records of the enumeration sequence, in order. *)
Definition entry_ids (db : UserDatabase) : list pyval :=
  omap (λ l, srno <$> heap db !! l) (entries db).

(** No two live records share an identifier. *)
Definition unique_ids (db : UserDatabase) : Prop := NoDup (entry_ids db).

(** The two views agree: the keys of the index are the identifiers of the
    enumerated records, and every key leads to an enumerated record. *)
Definition coherent (db : UserDatabase) : Prop :=
  (∀ k : Z, is_Some (srno_index db !! k) ↔ VInt k ∈ entry_ids db)
  ∧ (∀ (k : Z) (l : loc), srno_index db !! k = Some l → l ∈ entries db).

(** Every key of the index leads to an object that carries that key. *)
Definition index_sound (db : UserDatabase) : Prop :=
  ∀ (k : Z) (l : loc), srno_index db !! k = Some l →
    ∃ u, heap db !! l = Some u ∧ srno u = VInt k.

(** An update whose dictionary has no entry for the identifier field. *)
Definition keeps_srno (o : op) : Prop :=
  match o with
  | Update _ _ new_data => "srno" ∉ new_data.*1
  | _ => True
  end.

(** The store as the comments of the code describe it: every enumerated
    record is a distinct object that is indexed under its own identifier,
    and the index leads nowhere else. *)
Definition consistent (db : UserDatabase) : Prop :=
  NoDup (entries db)
  ∧ (∀ l, l ∈ entries db →
       ∃ u k, heap db !! l = Some u ∧ srno u = VInt k
              ∧ srno_index db !! k = Some l)
  ∧ (∀ k l, srno_index db !! k = Some l → l ∈ entries db)
  ∧ index_sound db.

(** Sequences without a delete and without an update of the identifier. *)
Definition no_delete (o : op) : Prop :=
  match o with
  | Create _ _ _ _ => True
  | Update _ _ new_data => "srno" ∉ new_data.*1
  | Delete _ _ => False
  end.

(** The keys of the index are at most the number of live records. *)
Definition dense (db : UserDatabase) : Prop :=
  consistent db
  ∧ ∀ k, is_Some (srno_index db !! k) → k ≤ Z.of_nat (length (entries db)).

(** The loop of [update_user] as the target object sees it: the object
    after the loop, and the answer. *)
Fixpoint update_obj (u : User) (items : list (string * pyval)) : User * bool :=
  match items with
  | [] => (u, true)
  | (field, val) :: rest =>
      if decide (field = "age") then
        match py_int val with
        | Some z => update_obj (setattr u field (VInt z)) rest
        | None => (u, false)
        end
      else update_obj (setattr u field val) rest
  end.

(** Every enumerated reference designates an object. *)
Definition valid_refs (db : UserDatabase) : Prop :=
  ∀ l, l ∈ entries db → (l < length (heap db))%nat.

(** The operations that the shell can ask of the store: the field to
    search by is one of the menu, a create passes the age as text, and the
    dictionary of an update has the four keys of [get_user_input]. *)
Definition shell_op (o : op) : Prop :=
  match o with
  | Create _ a _ _ => ∃ s, a = VStr s
  | Update key _ new_data =>
      key ∈ options ∧ new_data.*1 = ["name"; "age"; "gender"; "occupation"]
  | Delete key _ => key ∈ options
  end.

(** Names that begin with two underscores: the names that can denote an
    attribute of the class [User] instead of one of the instance. *)
Definition class_name (key : string) : bool := String.prefix "__" key.

(** Operations whose search key and whose dictionary keys are names of
    instance attributes. *)
Definition plain_op (o : op) : Prop :=
  match o with
  | Create _ _ _ _ => True
  | Update key _ new_data =>
      class_name key = false ∧ ∀ f, f ∈ new_data.*1 → class_name f = false
  | Delete key _ => class_name key = false
  end.

(** ** Attribute access *)

Lemma setattr_srno u field val :
  field ≠ "srno" → srno (setattr u field val) = srno u.
Proof.
  intros Hne. unfold setattr.
  repeat case_decide; simpl; congruence.
Qed.


(** ** The loop of [update_user] *)

Lemma update_fields_length h l items :
  length (update_fields h l items).1 = length h.
Proof.
  revert h. induction items as [|[field val] rest IH]; intros h; simpl; [done|].
  case_decide.
  - destruct (py_int val); simpl; [|done]. by rewrite IH, length_alter.
  - by rewrite IH, length_alter.
Qed.

Lemma update_fields_other h l items l' :
  l' ≠ l → (update_fields h l items).1 !! l' = h !! l'.
Proof.
  intros Hne. revert h.
  induction items as [|[field val] rest IH]; intros h; simpl; [done|].
  case_decide.
  - destruct (py_int val); simpl; [|done].
    by rewrite IH, list_lookup_alter_ne.
  - by rewrite IH, list_lookup_alter_ne.
Qed.

Lemma update_fields_srno h l items l' :
  "srno" ∉ items.*1 →
  srno <$> (update_fields h l items).1 !! l' = srno <$> h !! l'.
Proof.
  revert h. induction items as [|[field val] rest IH]; intros h Hno; simpl; [done|].
  simpl in Hno. apply not_elem_of_cons in Hno as [Hf Hrest].
  assert (∀ v, srno <$> alter (λ u, setattr u field v) l h !! l' = srno <$> h !! l')
    as Halter.
  { intros v. destruct (decide (l = l')) as [->|Hl].
    - rewrite list_lookup_alter_eq. destruct (h !! l'); simpl; [|done].
      by rewrite setattr_srno.
    - by rewrite list_lookup_alter_ne. }
  case_decide.
  - destruct (py_int val); simpl; [|done]. by rewrite IH, Halter.
  - by rewrite IH, Halter.
Qed.

(** A malformed age makes the loop answer [False]. *)
Lemma update_fields_rejects h l items :
  (∃ v, ("age", v) ∈ items) →
  (∀ v, ("age", v) ∈ items → py_int v = None) →
  (update_fields h l items).2 = false.
Proof.
  revert h. induction items as [|[field val] rest IH]; intros h [v Hin] Hbad.
  - by apply elem_of_nil in Hin.
  - simpl. case_decide as Hf.
    + subst. rewrite (Hbad val); [done|]. left.
    + apply elem_of_cons in Hin as [Heq|Hin]; [congruence|].
      apply IH; [eauto|]. intros v' Hv'. apply Hbad. by right.
Qed.

(** ** The index leads to the record that carries the key *)

Lemma index_sound_init : index_sound init.
Proof. intros k l H. unfold init in H. simpl in H. by rewrite lookup_empty in H. Qed.

Lemma index_sound_add_user db n a g oc :
  index_sound db → index_sound (add_user db n a g oc).1.
Proof.
  intros Hs. unfold add_user. destruct (py_int a) as [z|]; simpl; [|done].
  intros k l. simpl. rewrite lookup_insert. case_decide as Hk.
  - intros [= <-]. subst k. eexists. split.
    + rewrite lookup_app_r by lia. by rewrite Nat.sub_diag.
    + done.
  - intros Hl. destruct (Hs k l Hl) as (u & Hu & Hsr).
    exists u. split; [|done]. by apply lookup_app_l_Some.
Qed.

Lemma index_sound_update_user db key value new_data :
  "srno" ∉ new_data.*1 →
  index_sound db → index_sound (update_user db key value new_data).1.
Proof.
  intros Hno Hs. unfold update_user.
  destruct (find_user db key value) as [l|]; [|done].
  destruct (update_fields (heap db) l new_data) as [h ok] eqn:E. simpl.
  intros k l' Hl'. simpl in *.
  destruct (Hs k l' Hl') as (u & Hu & Hsr).
  pose proof (update_fields_srno (heap db) l new_data l' Hno) as Heq.
  rewrite E, Hu in Heq. simpl in Heq.
  destruct (h !! l') as [u'|]; simpl in Heq; [|done].
  exists u'. split; [done|]. congruence.
Qed.

Lemma index_sound_delete_user db key value :
  index_sound db → index_sound (delete_user db key value).1.
Proof.
  intros Hs. unfold delete_user.
  destruct (find_user db key value) as [l|]; [|done].
  destruct (list_remove (heap db) l (entries db)) as [es|]; [|done].
  destruct (heap db !! l ≫= _) as [index|] eqn:E; simpl; [|exact Hs].
  intros k l' Hl'. simpl in *. apply Hs.
  destruct (heap db !! l) as [u|]; simpl in E; [|done].
  unfold dict_del in E. destruct (srno u) as [k0|]; [|done].
  destruct (srno_index db !! k0); [|done].
  injection E as <-. by apply lookup_delete_Some in Hl' as [_ ?].
Qed.

Lemma index_sound_step db o :
  keeps_srno o → index_sound db → index_sound (step db o).
Proof.
  destruct o; simpl; intros Hk Hs.
  - by apply index_sound_add_user.
  - by apply index_sound_update_user.
  - by apply index_sound_delete_user.
Qed.

Lemma index_sound_foldl ops db :
  Forall keeps_srno ops → index_sound db → index_sound (foldl step db ops).
Proof.
  revert db. induction ops as [|o ops IH]; intros db Hall Hs; simpl; [done|].
  apply Forall_cons in Hall as [Ho Hall].
  apply IH; [done|]. by apply index_sound_step.
Qed.

(** C10. In every state reached from the empty store by creates, deletes
    and updates whose dictionary has no entry for the identifier field,
    every key [k] of the lookup index leads to a record whose own [srno]
    is [k]. *)
Theorem index_key_is_srno (ops : list op) (k : Z) (l : loc) :
  Forall keeps_srno ops →
  srno_index (run ops) !! k = Some l →
  ∃ u, heap (run ops) !! l = Some u ∧ srno u = VInt k.
Proof.
  intros Hall Hl.
  exact (index_sound_foldl ops init Hall index_sound_init k l Hl).
Qed.

Lemma index_key_is_srno_witness :
  ∃ u, heap (run [Create "Alice" (VStr "30") "F" "Engineer";
                  Create "Bob" (VStr "25") "M" "Doctor";
                  Update "name" "alice" [("age", VStr "31")];
                  Delete "name" "Alice";
                  Create "Carol" (VStr "40") "F" "Pilot"]) !! 2%nat = Some u
       ∧ srno u = VInt 2.
Proof.
  apply (index_key_is_srno _ 2 2%nat).
  - repeat constructor. simpl.
    apply not_elem_of_cons. split; [done | apply not_elem_of_nil].
  - vm_compute. reflexivity.
Defined.

(** ** Create *)

(** C4, amended. For every store and every create call whose age parses
    as an integer, the identifier is the number of enumerated records plus
    one; the new record is a fresh object with that identifier and the
    given fields, it is appended to the enumeration sequence and entered
    in the index under its identifier, every older object is untouched,
    and the call returns [None] (not the record). *)
Theorem add_user_creates (db : UserDatabase) (n : string) (a : pyval)
    (g oc : string) (z : Z) :
  py_int a = Some z →
  let id := Z.of_nat (length (entries db)) + 1 in
  let l := length (heap db) in
  let db' := (add_user db n a g oc).1 in
  heap db !! l = None
  ∧ heap db' !! l = Some (mkUser (VInt id) (VStr n) (VInt z) (VStr g) (VStr oc) ∅)
  ∧ (∀ l' u, heap db !! l' = Some u → heap db' !! l' = Some u)
  ∧ entries db' = entries db ++ [l]
  ∧ srno_index db' = <[id := l]> (srno_index db)
  ∧ srno_index db' !! id = Some l
  ∧ (add_user db n a g oc).2 = None.
Proof.
  intros Hz. unfold add_user, _get_next_srno. rewrite Hz. simpl.
  repeat split.
  - by apply lookup_ge_None_2.
  - rewrite lookup_app_r by lia. by rewrite Nat.sub_diag.
  - intros l' u Hu. by apply lookup_app_l_Some.
  - by rewrite lookup_insert_eq.
Qed.

Lemma add_user_creates_witness :
  entries (add_user init "Alice" (VStr "30") "F" "Engineer").1 = [0%nat]
  ∧ (add_user init "Alice" (VStr "30") "F" "Engineer").2 = None.
Proof.
  pose proof (add_user_creates init "Alice" (VStr "30") "F" "Engineer" 30
                eq_refl) as H.
  simpl in H. destruct H as (_ & _ & _ & He & _ & _ & Hr).
  split; [exact He | exact Hr].
Defined.

(** C4 as stated fails: a successful create does not return the record
    it has created. *)
Lemma add_user_returns_no_record :
  let r := add_user init "Alice" (VStr "30") "F" "Engineer" in
  ¬ (∃ l, entries r.1 = [l] ∧ r.2 = Some l).
Proof. simpl. intros (l & _ & Hr). vm_compute in Hr. discriminate Hr. Qed.

(** What the code keeps of C5: for every store and every create call whose
    age does not parse as an integer, the call ends normally, the store
    (objects, enumeration sequence and index) is the one before the call,
    and the call returns [None], which is also what every other create call
    returns. *)
Lemma add_user_rejects (db : UserDatabase) (n : string) (a : pyval)
    (g oc : string) :
  py_int a = None →
  (add_user db n a g oc).1 = db
  ∧ (add_user db n a g oc).2 = None
  ∧ (∀ db' n' a' g' oc', (add_user db' n' a' g' oc').2 = (add_user db n a g oc).2).
Proof.
  intros Hz. unfold add_user. rewrite Hz. simpl. repeat split.
  intros db' n' a' g' oc'. by destruct (py_int a').
Qed.

(** C5, at the failing input. A create with the age [abc] is rejected, the
    store stays empty, and the call returns [None]; a create with the age
    [25] is accepted and returns [None] as well: the result does not tell
    the caller of the rejection, where the sibling [update_user] answers
    [False] to a malformed age and [True] to a well-formed one. *)
Theorem add_user_rejection_looks_like_success :
  let bad := add_user init "Bob" (VStr "abc") "M" "Doctor" in
  let good := add_user init "Bob" (VStr "25") "M" "Doctor" in
  bad.1 = init
  ∧ bad.2 = None
  ∧ entries good.1 = [0%nat]
  ∧ good.2 = None
  ∧ bad.2 = good.2
  ∧ (update_user good.1 "name" "Bob" [("age", VStr "abc")]).2 = false
  ∧ (update_user good.1 "name" "Bob" [("age", VStr "26")]).2 = true.
Proof. vm_compute. repeat split. Qed.

(** ** Find *)

(** C6. With the identifier field name, a value that does not parse as an
    integer gives [None]; a value that parses gives what the index holds
    under that integer, hence [None] when the key is absent. *)
Theorem find_user_by_srno (db : UserDatabase) (value : string) :
  (py_int (VStr value) = None → find_user db "srno" value = None)
  ∧ (∀ k, py_int (VStr value) = Some k →
       find_user db "srno" value = srno_index db !! k
       ∧ (srno_index db !! k = None → find_user db "srno" value = None)).
Proof.
  unfold find_user. simpl. split.
  - by intros ->.
  - intros k ->. split; [done|]. by intros ->.
Qed.

Lemma find_user_by_srno_witness :
  let db := run [Create "Alice" (VStr "30") "F" "Engineer"] in
  find_user db "srno" "abc" = None
  ∧ find_user db "srno" " 1 " = Some 0%nat
  ∧ find_user db "srno" "2" = None.
Proof.
  simpl.
  pose proof (find_user_by_srno
                (run [Create "Alice" (VStr "30") "F" "Engineer"])) as H.
  split; [|split].
  - apply (proj1 (H "abc")). vm_compute. reflexivity.
  - rewrite (proj1 (proj2 (H " 1 ") 1 eq_refl)). vm_compute. reflexivity.
  - apply (proj2 (proj2 (H "2") 2 eq_refl)). vm_compute. reflexivity.
Defined.







(** ** Update *)

(** C8, amended. When an update resolves to a record and its dictionary has
    no entry for the identifier field, the record's identifier is the same
    after the call as before; every other record is unchanged, and so are
    the enumeration sequence and the index. *)
Theorem update_user_keeps_srno (db : UserDatabase) (key value : string)
    (new_data : list (string * pyval)) (l : loc) :
  find_user db key value = Some l →
  "srno" ∉ new_data.*1 →
  let db' := (update_user db key value new_data).1 in
  srno <$> heap db' !! l = srno <$> heap db !! l
  ∧ (∀ l', l' ≠ l → heap db' !! l' = heap db !! l')
  ∧ length (heap db') = length (heap db)
  ∧ entries db' = entries db
  ∧ srno_index db' = srno_index db.
Proof.
  intros Hfind Hno. unfold update_user. rewrite Hfind.
  pose proof (update_fields_srno (heap db) l new_data l Hno) as Hs.
  pose proof (update_fields_length (heap db) l new_data) as Hlen.
  pose proof (update_fields_other (heap db) l new_data) as Hother.
  destruct (update_fields (heap db) l new_data) as [h ok]. simpl in *.
  repeat split; done.
Qed.

Lemma update_user_keeps_srno_witness :
  let db := run [Create "Alice" (VStr "30") "F" "Engineer";
                 Create "Bob" (VStr "25") "M" "Doctor"] in
  srno <$> heap (update_user db "name" "alice"
                   [("name", VStr "Alicia"); ("age", VStr "31")]).1 !! 0%nat
  = Some (VInt 1).
Proof.
  intros db. etrans.
  - refine (proj1 (update_user_keeps_srno db "name" "alice" _ 0%nat _ _)).
    + reflexivity.
    + simpl. repeat (apply not_elem_of_cons; split; [done|]).
      apply not_elem_of_nil.
  - reflexivity.
Defined.

(** C8 as stated fails: an entry for the identifier field in the
    dictionary is assigned like any other. *)
Lemma update_user_rewrites_srno :
  let db := run [Create "Alice" (VStr "30") "F" "Engineer"] in
  let db' := (update_user db "name" "Alice" [("srno", VStr "7")]).1 in
  find_user db "name" "Alice" = Some 0%nat
  ∧ srno <$> heap db !! 0%nat = Some (VInt 1)
  ∧ srno <$> heap db' !! 0%nat = Some (VStr "7")
  ∧ ¬ (srno <$> heap db' !! 0%nat = srno <$> heap db !! 0%nat).
Proof. vm_compute. repeat split. discriminate. Qed.

(** C1, at the failing input. The shell's dictionary lists the name before
    the age: the update is answered [False], yet the name it assigned
    before it met the malformed age stays. *)
Theorem update_user_keeps_partial_change :
  let db := run [Create "Alice" (VStr "30") "F" "Engineer"] in
  let r := update_user db "srno" "1"
             [("name", VStr "Bob"); ("age", VStr "abc");
              ("gender", VStr "F"); ("occupation", VStr "Engineer")] in
  r.2 = false
  ∧ heap db !! 0%nat
    = Some (mkUser (VInt 1) (VStr "Alice") (VInt 30) (VStr "F") (VStr "Engineer") ∅)
  ∧ heap r.1 !! 0%nat
    = Some (mkUser (VInt 1) (VStr "Bob") (VInt 30) (VStr "F") (VStr "Engineer") ∅)
  ∧ heap r.1 !! 0%nat ≠ heap db !! 0%nat.
Proof. vm_compute. repeat split. discriminate. Qed.

(** The part of C1 that the code keeps: an update that resolves to a
    record and meets a malformed age is answered [False]. *)
Lemma update_user_rejects db key value new_data l :
  find_user db key value = Some l →
  (∃ v, ("age", v) ∈ new_data) →
  (∀ v, ("age", v) ∈ new_data → py_int v = None) →
  (update_user db key value new_data).2 = false.
Proof.
  intros Hfind Hage Hbad. unfold update_user. rewrite Hfind.
  pose proof (update_fields_rejects (heap db) l new_data Hage Hbad) as H.
  by destruct (update_fields (heap db) l new_data) as [h ok].
Qed.

(** ** Identifier reuse after a delete *)

(** C2, at the failing input. Two creates, the delete of the first record
    and a third create: the third record gets the count of live records
    plus one, which is the identifier of the second, still live. *)
Theorem create_after_delete_reuses_srno :
  let db := run [Create "Alice" (VStr "30") "F" "Engineer";
                 Create "Bob" (VStr "25") "M" "Doctor";
                 Delete "srno" "1";
                 Create "Carol" (VStr "40") "F" "Pilot"] in
  entries db = [1%nat; 2%nat]
  ∧ srno <$> heap db !! 1%nat = Some (VInt 2)
  ∧ srno <$> heap db !! 2%nat = Some (VInt 2)
  ∧ ¬ unique_ids db.
Proof.
  vm_compute. repeat split.
  intros H. apply NoDup_cons in H as [H _]. apply H. left.
Qed.

(** C3, at the failing input. After the identifier has been reused, the
    delete of the older holder removes the key that now leads to the newer
    one: the enumeration sequence keeps a record with identifier 2 and the
    index is empty. *)
Theorem delete_after_reuse_breaks_index :
  let db := run [Create "Alice" (VStr "30") "F" "Engineer";
                 Create "Bob" (VStr "25") "M" "Doctor";
                 Delete "srno" "1";
                 Create "Carol" (VStr "40") "F" "Pilot";
                 Delete "name" "Bob"] in
  entry_ids db = [VInt 2]
  ∧ srno_index db = ∅
  ∧ ¬ coherent db.
Proof.
  simpl. split; [by vm_compute|]. split; [by vm_compute|].
  intros [Hdom _]. specialize (Hdom 2).
  destruct (proj2 Hdom) as [l Hl].
  - vm_compute. left.
  - vm_compute in Hl. discriminate Hl.
Qed.

(** C9, at the failing input. After the identifier has been reused by a
    record equal in all five fields to the older one, the delete by
    identifier resolves to the newer record, [list.remove] drops the older
    one, which compares equal and comes first, and the resolved record is
    still enumerated. *)
Theorem delete_user_leaves_target :
  let db := run [Create "Alice" (VStr "30") "F" "Engineer";
                 Create "Bob" (VStr "25") "M" "Doctor";
                 Delete "srno" "1";
                 Create "Bob" (VStr "25") "M" "Doctor"] in
  let r := delete_user db "srno" "2" in
  find_user db "srno" "2" = Some 2%nat
  ∧ entries db = [1%nat; 2%nat]
  ∧ r.2 = Returns true
  ∧ entries r.1 = [2%nat]
  ∧ entry_ids r.1 = [VInt 2]
  ∧ find_user r.1 "srno" "2" = None.
Proof. vm_compute. repeat split. Qed.

(** ** What holds while no identifier has been reused *)








Lemma dense_init : dense init.
Proof.
  unfold dense, consistent, init. simpl. repeat split.
  - constructor.
  - intros l Hl. by apply elem_of_nil in Hl.
  - intros k l H. by rewrite lookup_empty in H.
  - exact index_sound_init.
  - intros k [l H]. by rewrite lookup_empty in H.
Qed.

Lemma dense_add_user db n a g oc :
  dense db → dense (add_user db n a g oc).1.
Proof.
  intros Hd.
  pose proof (index_sound_add_user db n a g oc (proj2 (proj2 (proj2 (proj1 Hd)))))
    as Hsound'.
  destruct Hd as ((Hnd & Hent & Hidx & Hsound) & Hle).
  unfold add_user, _get_next_srno in *.
  destruct (py_int a) as [z|]; simpl in *; [|done].
  assert (∀ k, is_Some (srno_index db !! k) →
               k ≠ Z.of_nat (length (entries db)) + 1) as Hfresh.
  { intros k Hk%Hle. lia. }
  repeat split; simpl.
  - apply NoDup_app. split; [done|]. split; [|apply NoDup_singleton].
    intros l Hl ->%list_elem_of_singleton.
    destruct (Hent _ Hl) as (u & _ & Hu & _).
    apply lookup_lt_Some in Hu. lia.
  - intros l [Hl| ->%list_elem_of_singleton]%elem_of_app.
    + destruct (Hent l Hl) as (u & k & Hu & Hk & Hi).
      exists u, k. split; [by apply lookup_app_l_Some|]. split; [done|].
      rewrite lookup_insert_ne; [done|]. intros Heq. by eapply Hfresh.
    + eexists _, _. split; [|split].
      * rewrite lookup_app_r by lia. by rewrite Nat.sub_diag.
      * done.
      * by rewrite lookup_insert_eq.
  - intros k l. rewrite lookup_insert. case_decide.
    + intros [= <-]. apply elem_of_app. right. by apply list_elem_of_singleton.
    + intros Hl. apply elem_of_app. left. by eapply Hidx.
  - done.
  - intros k. rewrite lookup_insert, length_app. simpl. case_decide.
    + intros _. lia.
    + intros Hk%Hle. lia.
Qed.

Lemma dense_update_user db key value new_data :
  "srno" ∉ new_data.*1 →
  dense db → dense (update_user db key value new_data).1.
Proof.
  intros Hno Hd.
  pose proof (index_sound_update_user db key value new_data Hno
                (proj2 (proj2 (proj2 (proj1 Hd))))) as Hsound'.
  destruct Hd as ((Hnd & Hent & Hidx & Hsound) & Hle).
  unfold update_user in *.
  destruct (find_user db key value) as [l|]; [|done].
  pose proof (update_fields_srno (heap db) l new_data) as Hs.
  destruct (update_fields (heap db) l new_data) as [h ok]. simpl in *.
  repeat split; simpl; try done.
  intros e He. destruct (Hent e He) as (u & k & Hu & Hk & Hi).
  specialize (Hs e Hno). rewrite Hu in Hs. simpl in Hs.
  destruct (h !! e) as [u'|]; simpl in Hs; [|done].
  exists u', k. split; [done|]. split; [congruence | done].
Qed.

Lemma dense_foldl ops db :
  Forall no_delete ops → dense db → dense (foldl step db ops).
Proof.
  revert db. induction ops as [|o ops IH]; intros db Hall Hd; simpl; [done|].
  apply Forall_cons in Hall as [Ho Hall]. apply IH; [done|].
  destruct o; simpl in *.
  - by apply dense_add_user.
  - by apply dense_update_user.
  - done.
Qed.

Lemma consistent_unique_ids db : consistent db → unique_ids db.
Proof.
  intros (Hnd & Hent & _ & _). unfold unique_ids, entry_ids.
  revert Hnd Hent. generalize (entries db) as es.
  induction es as [|e es IH]; intros Hnd Hent; simpl; [constructor|].
  apply NoDup_cons in Hnd as [He Hnd].
  assert (NoDup (omap (λ l, srno <$> heap db !! l) es)) as Hrest.
  { apply IH; [done|]. intros l Hl. apply Hent. by right. }
  destruct (Hent e) as (u & k & Hu & Hk & Hi); [left|].
  rewrite Hu. simpl. apply NoDup_cons. split; [|done].
  rewrite list_elem_of_omap. intros (e' & He' & Heq).
  destruct (Hent e') as (u' & k' & Hu' & Hk' & Hi'); [by right|].
  rewrite Hu' in Heq. simpl in Heq. injection Heq as Heq.
  rewrite Hk, Hk' in Heq. injection Heq as ->. congruence.
Qed.

Lemma consistent_coherent db : consistent db → coherent db.
Proof.
  intros (Hnd & Hent & Hidx & Hsound). split; [|exact Hidx].
  intros k. unfold entry_ids. rewrite list_elem_of_omap. split.
  - intros [l Hl]. exists l. split; [by eapply Hidx|].
    destruct (Hsound k l Hl) as (u & -> & <-). done.
  - intros (l & Hl & Heq). destruct (Hent l Hl) as (u & k' & Hu & Hk & Hi).
    rewrite Hu in Heq. simpl in Heq. injection Heq as Heq.
    rewrite Hk in Heq. injection Heq as ->. eauto.
Qed.

(** C2 and C3 where the code keeps them: as long as nothing has been
    deleted, identifiers are unique and the two views agree. *)
Lemma creates_keep_store_consistent (ops : list op) :
  Forall no_delete ops →
  consistent (run ops) ∧ unique_ids (run ops) ∧ coherent (run ops).
Proof.
  intros Hall.
  destruct (dense_foldl ops init Hall dense_init) as [Hc _].
  split; [done|]. split.
  - by apply consistent_unique_ids.
  - by apply consistent_coherent.
Qed.

(** ** More on [update_user] *)

Lemma getattr_setattr_eq u field val dflt :
  getattr (setattr u field val) field dflt = val.
Proof.
  unfold getattr, setattr. repeat case_decide; simpl; try done.
  by rewrite lookup_insert_eq.
Qed.

Lemma getattr_setattr_ne u field val key dflt :
  key ≠ field → getattr (setattr u field val) key dflt = getattr u key dflt.
Proof.
  intros Hne. unfold getattr, setattr.
  repeat case_decide; simpl; try done; try congruence.
  by rewrite lookup_insert_ne.
Qed.

Lemma list_alter_Some {A} (f : A → A) (h : list A) (l : nat) (x : A) :
  h !! l = Some x → alter f l h = <[l := f x]> h.
Proof.
  intros Hx. apply list_eq. intros i. destruct (decide (i = l)) as [->|Hne].
  - rewrite list_lookup_alter_eq, Hx, list_lookup_insert_eq; [done|].
    by eapply lookup_lt_Some.
  - by rewrite list_lookup_alter_ne, list_lookup_insert_ne.
Qed.

Lemma update_fields_obj h l u items :
  h !! l = Some u →
  update_fields h l items
  = (<[l := (update_obj u items).1]> h, (update_obj u items).2).
Proof.
  revert h u. induction items as [|[field val] rest IH]; intros h u Hu; simpl.
  - by rewrite list_insert_id.
  - assert (l < length h)%nat as Hlt by by eapply lookup_lt_Some.
    assert (∀ v, update_fields (alter (λ u0, setattr u0 field v) l h) l rest
                 = (<[l := (update_obj (setattr u field v) rest).1]> h,
                    (update_obj (setattr u field v) rest).2)) as Hstep.
    { intros v. rewrite (list_alter_Some _ h l u Hu).
      rewrite (IH _ (setattr u field v)) by by apply list_lookup_insert_eq.
      by rewrite list_insert_insert_eq. }
    case_decide.
    + destruct (py_int val); simpl; [apply Hstep | by rewrite list_insert_id].
    + apply Hstep.
Qed.

Lemma update_fields_ok h l items :
  (update_fields h l items).2 = true ↔
  ∀ v, ("age", v) ∈ items → is_Some (py_int v).
Proof.
  revert h. induction items as [|[field val] rest IH]; intros h; simpl.
  - split; [|done]. intros _ v Hv. by apply elem_of_nil in Hv.
  - case_decide as Hf.
    + subst. destruct (py_int val) as [z|] eqn:Hz; simpl.
      * rewrite IH. split.
        -- intros H v [[= ->]|Hv]%elem_of_cons; [by rewrite Hz | by apply H].
        -- intros H v Hv. apply H. by right.
      * split; [done|]. intros H.
        destruct (H val) as [z Hz']; [left | congruence].
    + rewrite IH. split.
      * intros H v [[= ? _]|Hv]%elem_of_cons; [done | by apply H].
      * intros H v Hv. apply H. by right.
Qed.

Lemma update_obj_frame u items key dflt :
  key ∉ items.*1 →
  getattr (update_obj u items).1 key dflt = getattr u key dflt.
Proof.
  revert u. induction items as [|[field val] rest IH]; intros u Hno; simpl; [done|].
  simpl in Hno. apply not_elem_of_cons in Hno as [Hne Hrest].
  case_decide.
  - destruct (py_int val); simpl; [|done].
    by rewrite IH, getattr_setattr_ne.
  - by rewrite IH, getattr_setattr_ne.
Qed.

Lemma update_obj_written u items field val dflt :
  NoDup items.*1 → (field, val) ∈ items → (update_obj u items).2 = true →
  getattr (update_obj u items).1 field dflt
  = (if decide (field = "age") then from_option VInt val (py_int val) else val).
Proof.
  revert u. induction items as [|[f v] rest IH]; intros u Hnd Hin Hok.
  - by apply elem_of_nil in Hin.
  - simpl in Hnd. apply NoDup_cons in Hnd as [Hf Hnd].
    apply elem_of_cons in Hin as [[= -> ->]|Hin]; simpl in *.
    + case_decide.
      * destruct (py_int v) as [z|]; simpl in *; [|done].
        by rewrite update_obj_frame, getattr_setattr_eq.
      * by rewrite update_obj_frame, getattr_setattr_eq.
    + case_decide.
      * destruct (py_int v) as [z|]; simpl in *; [|done]. by apply IH.
      * by apply IH.
Qed.




(** After an update that is answered [True], with a dictionary (no key
    twice), the record reads back every value of the dictionary under its
    field name, the age as the integer it parses to. *)
Theorem update_user_writes (db : UserDatabase) (key value : string)
    (new_data : list (string * pyval)) (l : loc) (u : User) :
  find_user db key value = Some l →
  heap db !! l = Some u →
  NoDup new_data.*1 →
  (update_user db key value new_data).2 = true →
  ∃ u', heap (update_user db key value new_data).1 !! l = Some u'
    ∧ ∀ field val dflt, (field, val) ∈ new_data →
        (field ≠ "age" → getattr u' field dflt = val)
        ∧ (field = "age" →
             ∃ z, py_int val = Some z ∧ getattr u' field dflt = VInt z).
Proof.
  intros Hfind Hu Hnd. unfold update_user. rewrite Hfind.
  rewrite (update_fields_obj _ _ u) by done. simpl. intros Hok.
  exists (update_obj u new_data).1. split.
  - apply list_lookup_insert_eq. by eapply lookup_lt_Some.
  - intros field val dflt Hin.
    pose proof (update_obj_written u new_data field val dflt Hnd Hin Hok) as Hw.
    split; intros Hf.
    + by rewrite decide_False in Hw.
    + rewrite decide_True in Hw by done.
      assert (is_Some (py_int val)) as [z Hz].
      { pose proof (update_fields_ok (heap db) l new_data) as Hfo.
        rewrite (update_fields_obj _ _ u) in Hfo by done. simpl in Hfo.
        apply Hfo; [done|]. by subst. }
      exists z. split; [done|]. by rewrite Hw, Hz.
Qed.

Lemma update_user_writes_witness :
  ∃ u', heap (update_user (run [Create "Alice" (VStr "30") "F" "Engineer"])
                "srno" "1" [("age", VStr "31"); ("city", VStr "Pune")]).1
        !! 0%nat = Some u'
    ∧ getattr u' "age" (VStr "") = VInt 31
    ∧ getattr u' "city" (VStr "") = VStr "Pune".
Proof.
  destruct (update_user_writes
              (run [Create "Alice" (VStr "30") "F" "Engineer"]) "srno" "1"
              [("age", VStr "31"); ("city", VStr "Pune")] 0%nat _
              eq_refl eq_refl) as (u' & Hu' & Hw).
  - simpl. repeat (apply NoDup_cons; split;
      [repeat (apply not_elem_of_cons; split; [done|]); apply not_elem_of_nil|]).
    apply NoDup_nil_2.
  - reflexivity.
  - exists u'. split; [exact Hu'|]. split.
    + destruct (proj2 (Hw "age" (VStr "31") (VStr "") ltac:(left)) eq_refl)
        as (z & Hz & Hg).
      vm_compute in Hz. injection Hz as <-. exact Hg.
    + apply (Hw "city" (VStr "Pune") (VStr "")); [right; left | done].
Defined.





(** ** More on [delete_user] *)

Lemma list_remove_Some h l es es' :
  list_remove h l es = Some es' →
  ∃ pre e post, es = pre ++ e :: post ∧ es' = pre ++ post
    ∧ same_object h l e = true
    ∧ ∀ x, x ∈ pre → same_object h l x = false.
Proof.
  revert es'. induction es as [|e es IH]; intros es'; simpl; [done|].
  destruct (same_object h l e) eqn:He.
  - intros [= <-]. exists [], e, es. repeat split; [done|].
    intros x Hx. by apply elem_of_nil in Hx.
  - destruct (list_remove h l es) as [es0|]; simpl; [|done].
    intros [= <-]. destruct (IH es0 eq_refl) as (pre & e' & post & -> & -> & Hs & Hpre).
    exists (e :: pre), e', post. repeat split; [done|].
    intros x [->|Hx]%elem_of_cons; [done | by apply Hpre].
Qed.

Lemma list_remove_None h l es :
  list_remove h l es = None → ∀ e, e ∈ es → same_object h l e = false.
Proof.
  induction es as [|e es IH]; simpl.
  - intros _ x Hx. by apply elem_of_nil in Hx.
  - destruct (same_object h l e) eqn:He; [done|].
    destruct (list_remove h l es); simpl; [done|].
    intros _ x [->|Hx]%elem_of_cons; [done | by apply IH].
Qed.

(** When a delete is answered [True], on any store: one element has left
    the enumeration sequence, the first that is the resolved record or
    compares equal to it; the key that is the resolved record's [srno] has
    left the index; no object has changed. *)
Theorem delete_user_true (db : UserDatabase) (key value : string) :
  (delete_user db key value).2 = Returns true →
  ∃ l u k pre e post,
    find_user db key value = Some l
    ∧ heap db !! l = Some u ∧ srno u = VInt k
    ∧ is_Some (srno_index db !! k)
    ∧ entries db = pre ++ e :: post
    ∧ same_object (heap db) l e = true
    ∧ (∀ x, x ∈ pre → same_object (heap db) l x = false)
    ∧ delete_user db key value
      = (mkDB (heap db) (pre ++ post) (delete k (srno_index db)), Returns true).
Proof.
  unfold delete_user. destruct (find_user db key value) as [l|]; [|done].
  destruct (list_remove (heap db) l (entries db)) as [es|] eqn:Hrm; [|done].
  destruct (list_remove_Some _ _ _ _ Hrm) as (pre & e & post & He & -> & Hs & Hpre).
  destruct (heap db !! l) as [u|] eqn:Hu; simpl; [|done].
  destruct (srno u) as [k|] eqn:Hk; simpl; [|done].
  destruct (srno_index db !! k) as [l0|] eqn:Hi; simpl; [|done].
  intros _. exists l, u, k, pre, e, post. by repeat split; eauto.
Qed.

Lemma delete_user_true_witness :
  ∃ l u k pre e post,
    find_user (run [Create "Alice" (VStr "30") "F" "Engineer";
                    Create "Bob" (VStr "25") "M" "Doctor"]) "name" "BOB" = Some l
    ∧ heap (run [Create "Alice" (VStr "30") "F" "Engineer";
                 Create "Bob" (VStr "25") "M" "Doctor"]) !! l = Some u
    ∧ srno u = VInt k
    ∧ entries (run [Create "Alice" (VStr "30") "F" "Engineer";
                    Create "Bob" (VStr "25") "M" "Doctor"]) = pre ++ e :: post.
Proof.
  destruct (delete_user_true
              (run [Create "Alice" (VStr "30") "F" "Engineer";
                    Create "Bob" (VStr "25") "M" "Doctor"]) "name" "BOB" eq_refl)
    as (l & u & k & pre & e & post & H1 & H2 & H3 & _ & H5 & _).
  by exists l, u, k, pre, e, post.
Defined.

(** When a delete raises, no object and no key of the index has changed.
    After a [ValueError] the enumeration sequence is unchanged too; after a
    [KeyError] it has already lost one element. *)
Theorem delete_user_raises (db : UserDatabase) (key value : string) (e : exn) :
  (delete_user db key value).2 = Raises e →
  let db' := (delete_user db key value).1 in
  heap db' = heap db
  ∧ srno_index db' = srno_index db
  ∧ (e = ValueError → entries db' = entries db)
  ∧ (e = KeyError → S (length (entries db')) = length (entries db)).
Proof.
  unfold delete_user. destruct (find_user db key value) as [l|]; [|done].
  destruct (list_remove (heap db) l (entries db)) as [es|] eqn:Hrm.
  - destruct (heap db !! l ≫= _); simpl; [done|].
    intros [= <-]. repeat split; [done|]. intros _.
    destruct (list_remove_Some _ _ _ _ Hrm) as (pre & x & post & -> & -> & _).
    rewrite !length_app. simpl. lia.
  - simpl. intros [= <-]. by repeat split.
Qed.

Lemma delete_user_raises_witness :
  let db := run [Create "Alice" (VStr "30") "F" "Engineer";
                 Create "Bob" (VStr "25") "M" "Doctor";
                 Delete "srno" "1";
                 Create "Carol" (VStr "40") "F" "Pilot";
                 Delete "name" "Bob"] in
  S (length (entries (delete_user db "name" "Carol").1)) = length (entries db).
Proof.
  intros db.
  apply (delete_user_raises db "name" "Carol" KeyError); reflexivity.
Defined.



(** ** More on [add_user] and on runs *)

Lemma consistent_valid_refs db : consistent db → valid_refs db.
Proof.
  intros (_ & Hent & _ & _) l Hl.
  destruct (Hent l Hl) as (u & _ & Hu & _). by eapply lookup_lt_Some.
Qed.

Lemma entry_ids_ext h h' es ix ix' :
  (∀ l, l ∈ es → srno <$> h' !! l = srno <$> h !! l) →
  entry_ids (mkDB h' es ix') = entry_ids (mkDB h es ix).
Proof.
  unfold entry_ids. simpl. induction es as [|e es IH]; intros H; csimpl; [done|].
  rewrite H by left. rewrite IH; [done|]. intros l Hl. apply H. by right.
Qed.

Lemma entry_ids_add_user db n a g oc z :
  valid_refs db → py_int a = Some z →
  entry_ids (add_user db n a g oc).1
  = entry_ids db ++ [VInt (_get_next_srno db)].
Proof.
  intros Hv Hz. unfold add_user. rewrite Hz. unfold entry_ids. simpl.
  rewrite omap_app. simpl.
  rewrite lookup_app_r by lia. rewrite Nat.sub_diag. simpl. f_equal.
  pose proof (entry_ids_ext (heap db) (heap db ++ [mkUser
     (VInt (_get_next_srno db)) (VStr n) (VInt z) (VStr g) (VStr oc) ∅])
     (entries db) ∅ ∅) as H.
  unfold entry_ids in H. simpl in H. apply H.
  intros l Hl. by rewrite lookup_app_l by by apply Hv.
Qed.

Lemma consistent_add_user_fresh db n a g oc :
  consistent db →
  srno_index db !! _get_next_srno db = None →
  consistent (add_user db n a g oc).1.
Proof.
  intros Hc Hfree.
  pose proof (index_sound_add_user db n a g oc (proj2 (proj2 (proj2 Hc))))
    as Hsound'.
  destruct Hc as (Hnd & Hent & Hidx & Hsound).
  unfold add_user in *.
  destruct (py_int a) as [z|]; simpl in *; [|done].
  repeat split; simpl.
  - apply NoDup_app. split; [done|]. split; [|apply NoDup_singleton].
    intros l Hl ->%list_elem_of_singleton.
    destruct (Hent _ Hl) as (u & _ & Hu & _).
    apply lookup_lt_Some in Hu. lia.
  - intros l [Hl| ->%list_elem_of_singleton]%elem_of_app.
    + destruct (Hent l Hl) as (u & k & Hu & Hk & Hi).
      exists u, k. split; [by apply lookup_app_l_Some|]. split; [done|].
      rewrite lookup_insert_ne; [done|]. intros <-. congruence.
    + eexists _, _. split; [|split].
      * rewrite lookup_app_r by lia. by rewrite Nat.sub_diag.
      * done.
      * by rewrite lookup_insert_eq.
  - intros k l. rewrite lookup_insert. case_decide.
    + intros [= <-]. apply elem_of_app. right. by apply list_elem_of_singleton.
    + intros Hl. apply elem_of_app. left. by eapply Hidx.
  - done.
Qed.

(** A successful create on a consistent store keeps the identifiers unique
    exactly when the number of live records plus one is not yet a key of
    the index; in that case the store stays consistent. *)
Theorem add_user_unique_iff (db : UserDatabase) (n : string) (a : pyval)
    (g oc : string) (z : Z) :
  consistent db →
  py_int a = Some z →
  (unique_ids (add_user db n a g oc).1
     ↔ srno_index db !! _get_next_srno db = None)
  ∧ (srno_index db !! _get_next_srno db = None →
       consistent (add_user db n a g oc).1).
Proof.
  intros Hc Hz. split; [split|].
  - intros Hu. destruct (srno_index db !! _get_next_srno db) as [l|] eqn:Hl; [|done].
    exfalso. unfold unique_ids in Hu.
    rewrite (entry_ids_add_user db n a g oc z) in Hu
      by (done || by apply consistent_valid_refs).
    apply NoDup_app in Hu as (_ & Hdisj & _).
    apply (Hdisj (VInt (_get_next_srno db))); [|left].
    destruct Hc as (_ & _ & Hidx & Hsound).
    destruct (Hsound _ _ Hl) as (u & Hu & Hk).
    unfold entry_ids. apply list_elem_of_omap. exists l.
    split; [by eapply Hidx|]. rewrite Hu. simpl. by rewrite Hk.
  - intros Hfree. apply consistent_unique_ids.
    by apply consistent_add_user_fresh.
  - by apply consistent_add_user_fresh.
Qed.

Lemma add_user_unique_iff_witness :
  unique_ids (add_user (run [Create "Alice" (VStr "30") "F" "Engineer"])
                "Bob" (VStr "25") "M" "Doctor").1.
Proof.
  apply (add_user_unique_iff _ "Bob" (VStr "25") "M" "Doctor" 25).
  - apply (dense_foldl _ init); [|exact dense_init]. repeat constructor.
  - reflexivity.
  - reflexivity.
Defined.

Lemma numbered_foldl ops db :
  Forall no_delete ops → dense db →
  entry_ids db = VInt <$> seqZ 1 (Z.of_nat (length (entries db))) →
  entry_ids (foldl step db ops)
  = VInt <$> seqZ 1 (Z.of_nat (length (entries (foldl step db ops)))).
Proof.
  revert db. induction ops as [|o ops IH]; intros db Hall Hd Hids; simpl; [done|].
  apply Forall_cons in Hall as [Ho Hall].
  destruct o as [n a g oc|k v nd|k v]; simpl in *; [| |done].
  - apply IH; [done | by apply dense_add_user |].
    destruct (py_int a) as [z|] eqn:Hz.
    + rewrite (entry_ids_add_user db n a g oc z)
        by (done || by apply consistent_valid_refs, Hd).
      unfold add_user. rewrite Hz. simpl.
      rewrite length_app. simpl. rewrite Nat.add_1_r, seqZ_S, fmap_app, Hids.
      unfold _get_next_srno. simpl. do 3 f_equal. lia.
    + unfold add_user. by rewrite Hz.
  - apply IH; [done | by apply dense_update_user |].
    unfold update_user. destruct (find_user db k v) as [l|]; [|done].
    pose proof (update_fields_srno (heap db) l nd) as Hs.
    destruct (update_fields (heap db) l nd) as [h ok]. simpl in *.
    rewrite <- Hids. destruct db as [h0 es ix]. simpl in *.
    apply entry_ids_ext. intros l' _. by apply Hs.
Qed.

(** As long as nothing has been deleted (and no update names the
    identifier field), the records of the enumeration sequence carry the
    identifiers 1, 2, ..., n in insertion order. *)
Theorem ids_count_up (ops : list op) :
  Forall no_delete ops →
  entry_ids (run ops)
  = VInt <$> seqZ 1 (Z.of_nat (length (entries (run ops)))).
Proof.
  intros Hall. by apply numbered_foldl; [| exact dense_init |].
Qed.

Lemma ids_count_up_witness :
  entry_ids (run [Create "Alice" (VStr "30") "F" "Engineer";
                  Create "Eve" (VStr "old") "F" "Spy";
                  Update "srno" "1" [("age", VStr "31")];
                  Create "Bob" (VStr "25") "M" "Doctor"])
  = [VInt 1; VInt 2].
Proof.
  etrans.
  - apply ids_count_up. repeat constructor. simpl.
    apply not_elem_of_cons. split; [done | apply not_elem_of_nil].
  - reflexivity.
Defined.

Lemma valid_refs_step db o : valid_refs db → valid_refs (step db o).
Proof.
  intros Hv. destruct o as [n a g oc|k v nd|k v]; simpl.
  - unfold add_user. destruct (py_int a); simpl; [|done].
    intros l. simpl. rewrite length_app. simpl.
    intros [Hl| ->%list_elem_of_singleton]%elem_of_app; [|lia].
    specialize (Hv l Hl). lia.
  - unfold update_user. destruct (find_user db k v) as [l|]; [|done].
    pose proof (update_fields_length (heap db) l nd) as Hlen.
    destruct (update_fields (heap db) l nd) as [h ok]. simpl in *.
    intros l' Hl'. simpl in *. rewrite Hlen. by apply Hv.
  - unfold delete_user. destruct (find_user db k v) as [l|]; [|done].
    destruct (list_remove (heap db) l (entries db)) as [es|] eqn:Hrm; [|done].
    destruct (list_remove_Some _ _ _ _ Hrm) as (pre & e & post & He & -> & _).
    assert (∀ x, x ∈ pre ++ post → (x < length (heap db))%nat) as Hsub.
    { intros x Hx. apply Hv. rewrite He.
      apply elem_of_app in Hx as [Hx|Hx]; apply elem_of_app;
        [by left | right; by right]. }
    by destruct (heap db !! l ≫= _).
Qed.

Lemma valid_refs_run ops : valid_refs (run ops).
Proof.
  unfold run. assert (valid_refs init) as H.
  { intros l Hl. by apply elem_of_nil in Hl. }
  revert H. generalize init. induction ops as [|o ops IH]; intros db H; [done|].
  simpl. by apply IH, valid_refs_step.
Qed.

Lemma scan_app_Some h key value es es' l :
  scan h key value es = Some l → scan h key value (es ++ es') = Some l.
Proof.
  induction es as [|e es IH]; simpl; [done|].
  by destruct (field_matches h key value e).
Qed.

Lemma scan_heap_app h u key value es :
  (∀ l, l ∈ es → (l < length h)%nat) →
  scan (h ++ [u]) key value es = scan h key value es.
Proof.
  induction es as [|e es IH]; intros Hv; simpl; [done|].
  unfold field_matches. rewrite lookup_app_l by (apply Hv; left).
  rewrite IH; [done|]. intros l Hl. apply Hv. by right.
Qed.

Lemma find_user_add_user db n a g oc key value l :
  valid_refs db →
  find_user db key value = Some l →
  (key = "srno" → py_int (VStr value) ≠ Some (_get_next_srno db)) →
  find_user (add_user db n a g oc).1 key value = Some l.
Proof.
  intros Hv Hfind Hid. unfold add_user.
  destruct (py_int a) as [z|]; simpl; [|done].
  unfold find_user in *. cbn [fst heap entries srno_index]. case_decide as Hk.
  - destruct (py_int (VStr value)) as [k|]; [|done].
    rewrite lookup_insert_ne; [done|]. intros Heq. apply Hid; [done|].
    by rewrite Heq.
  - apply scan_app_Some. by rewrite scan_heap_app.
Qed.

(** In any state that a sequence of operations reaches, a create does not
    change the answer of a search that found a record, unless the search
    is by identifier for the number of live records plus one. *)
Theorem create_keeps_search (ops : list op) (n : string) (a : pyval)
    (g oc : string) (key value : string) (l : loc) :
  find_user (run ops) key value = Some l →
  (key = "srno" → py_int (VStr value) ≠ Some (_get_next_srno (run ops))) →
  find_user (run (ops ++ [Create n a g oc])) key value = Some l.
Proof.
  intros Hfind Hid. unfold run. rewrite foldl_app. simpl.
  apply find_user_add_user; [apply valid_refs_run | done..].
Qed.

Lemma create_keeps_search_witness :
  find_user (run ([Create "Alice" (VStr "30") "F" "Engineer";
                   Create "Bob" (VStr "25") "M" "Doctor"]
                  ++ [Create "ALICE" (VStr "41") "F" "Pilot"])) "name" "alice"
  = Some 0%nat.
Proof.
  apply create_keeps_search; [reflexivity | done].
Defined.

(** ** The shell *)

Lemma options_lookup choice :
  1 ≤ choice ≤ 5 →
  options !!! Z.to_nat (choice - 1) ∈ options
  ∧ options !! Z.to_nat (choice - 1) = Some (options !!! Z.to_nat (choice - 1)).
Proof.
  intros H.
  assert (choice = 1 ∨ choice = 2 ∨ choice = 3 ∨ choice = 4 ∨ choice = 5)
    as [->|[->|[->|[->| ->]]]] by lia;
    (split; [|reflexivity]); unfold options; simpl;
    repeat ((by left) || right).
Qed.

Lemma get_search_criteria_Some inp key value rest said :
  get_search_criteria inp = Some (Some (key, value), rest, said) →
  said = []
  ∧ ∃ c v choice, inp = c :: v :: rest
      ∧ py_int (VStr c) = Some choice ∧ 1 ≤ choice ≤ 5
      ∧ options !! Z.to_nat (choice - 1) = Some key
      ∧ key ∈ options
      ∧ value = str_strip v.
Proof.
  unfold get_search_criteria. destruct inp as [|c rest0]; [done|].
  destruct (py_int (VStr c)) as [choice|] eqn:Hc; [|done].
  destruct ((1 <=? choice) && (choice <=? Z.of_nat (length options))) eqn:Hr;
    [|done].
  destruct rest0 as [|v rest']; [done|]. intros [= <- <- <- <-].
  apply andb_true_iff in Hr as [H1%Z.leb_le H2%Z.leb_le]. simpl in H2.
  destruct (options_lookup choice) as [Hin Hlk]; [lia|].
  split; [done|]. exists c, v, choice. by repeat split.
Qed.

Lemma get_search_criteria_None inp rest said :
  get_search_criteria inp = Some (None, rest, said) →
  ∃ c, inp = c :: rest
    ∧ ((py_int (VStr c) = None ∧ said = [InvalidInput])
       ∨ (∃ choice, py_int (VStr c) = Some choice
            ∧ ¬ (1 ≤ choice ≤ 5) ∧ said = [])).
Proof.
  unfold get_search_criteria.
  destruct inp as [|c rest0]; [done|].
  destruct (py_int (VStr c)) as [choice|] eqn:Hc.
  - destruct ((1 <=? choice) && (choice <=? Z.of_nat (length options))) eqn:Hr.
    + by destruct rest0.
    + intros [= <- <-]. exists c. split; [done|]. right.
      exists choice. repeat split; [done|].
      apply andb_false_iff in Hr as [H%Z.leb_gt|H%Z.leb_gt];
        simpl in H; lia.
  - intros [= <- <-]. exists c. split; [done|]. by left.
Qed.

Lemma get_search_criteria_pair c v rest choice key :
  py_int (VStr c) = Some choice → 1 ≤ choice ≤ 5 →
  options !! Z.to_nat (choice - 1) = Some key →
  get_search_criteria (c :: v :: rest) = Some (Some (key, str_strip v), rest, []).
Proof.
  intros Hc Hr Hk. unfold get_search_criteria. rewrite Hc.
  assert ((1 <=? choice) && (choice <=? Z.of_nat (length options)) = true) as ->.
  { apply andb_true_iff. split; apply Z.leb_le; simpl; lia. }
  by rewrite (list_lookup_total_correct _ _ _ Hk).
Qed.

(** [get_search_criteria] returns a pair exactly when the first line is an
    integer from 1 to 5 and a second line follows: the field is the one
    the menu lists under that number and the value is the second line,
    stripped. It returns [None] exactly when the first line is not an
    integer, which it reports, or is an integer out of range, which it
    passes over silently; one line is read then. It raises [EOFError]
    exactly when there is no line, or no second line after a number from 1
    to 5. *)
Theorem get_search_criteria_result (inp : list string) :
  (∀ key value rest said,
     get_search_criteria inp = Some (Some (key, value), rest, said) ↔
     said = []
     ∧ ∃ c v choice, inp = c :: v :: rest
         ∧ py_int (VStr c) = Some choice ∧ 1 ≤ choice ≤ 5
         ∧ options !! Z.to_nat (choice - 1) = Some key
         ∧ value = str_strip v)
  ∧ (∀ rest said,
       get_search_criteria inp = Some (None, rest, said) ↔
       ∃ c, inp = c :: rest
         ∧ ((py_int (VStr c) = None ∧ said = [InvalidInput])
            ∨ (∃ choice, py_int (VStr c) = Some choice
                 ∧ ¬ (1 ≤ choice ≤ 5) ∧ said = [])))
  ∧ (get_search_criteria inp = None ↔
       inp = []
       ∨ ∃ c choice, inp = [c] ∧ py_int (VStr c) = Some choice ∧ 1 ≤ choice ≤ 5)
  ∧ (∀ key value rest said,
       get_search_criteria inp = Some (Some (key, value), rest, said) →
       key ∈ options).
Proof.
  split; [|split; [|split]].
  - intros key value rest said. split.
    + intros (-> & c & v & choice & -> & Hc & Hr & Hk & _ & ->)%get_search_criteria_Some.
      split; [done|]. by exists c, v, choice.
    + intros (-> & c & v & choice & -> & Hc & Hr & Hk & ->).
      by apply (get_search_criteria_pair c v rest choice).
  - intros rest said. split; [apply get_search_criteria_None|].
    intros (c & -> & [[Hc ->]|(choice & Hc & Hr & ->)]);
      unfold get_search_criteria; rewrite Hc; [done|].
    assert ((1 <=? choice) && (choice <=? Z.of_nat (length options)) = false) as ->;
      [|done].
    apply andb_false_iff. rewrite !Z.leb_gt. simpl. lia.
  - unfold get_search_criteria. destruct inp as [|c rest]; [by split; [left|]|].
    split.
    + destruct (py_int (VStr c)) as [choice|] eqn:Hc; [|done].
      destruct ((1 <=? choice) && (choice <=? Z.of_nat (length options))) eqn:Hr;
        [|done].
      destruct rest as [|v rest]; [|done]. intros _. right.
      exists c, choice. repeat split; [done|..];
        apply andb_true_iff in Hr as [H1%Z.leb_le H2%Z.leb_le]; simpl in H2; lia.
    + intros [?|(c0 & choice & [= -> ->] & Hc & Hr)]; [done|]. rewrite Hc.
      assert ((1 <=? choice) && (choice <=? Z.of_nat (length options)) = true)
        as ->; [|done].
      apply andb_true_iff. split; apply Z.leb_le; simpl; lia.
  - intros key value rest said H.
    by apply get_search_criteria_Some in H as (_ & c & v & ch & _ & _ & _ & _ & ? & _).
Qed.

Lemma get_search_criteria_result_witness :
  get_search_criteria ["2"; "  Alice "; "6"] = Some (Some ("name", "Alice"), ["6"], []).
Proof.
  apply (proj1 (get_search_criteria_result ["2"; "  Alice "; "6"])).
  split; [done|]. exists "2", "  Alice ", 2. repeat split; lia.
Defined.

Lemma get_user_input_Some inp d rest :
  get_user_input inp = Some (d, rest) →
  ∃ n a g o, inp = n :: a :: g :: o :: rest
    ∧ d = [("name", VStr (str_strip n)); ("age", VStr (str_strip a));
           ("gender", VStr (str_strip g)); ("occupation", VStr (str_strip o))].
Proof.
  unfold get_user_input. destruct inp as [|n [|a [|g [|o rest0]]]]; try done.
  intros [= <- <-]. by exists n, a, g, o.
Qed.

Lemma get_search_criteria_shorter inp r res said :
  get_search_criteria inp = Some (res, r, said) →
  (length r < length inp)%nat.
Proof.
  destruct res as [[k v]|]; intros H.
  - apply get_search_criteria_Some in H as (_ & c0 & v0 & ch & -> & _).
    simpl. lia.
  - apply get_search_criteria_None in H as (c0 & -> & _).
    simpl. lia.
Qed.

Lemma get_user_input_shorter inp d r :
  get_user_input inp = Some (d, r) → (length r < length inp)%nat.
Proof.
  intros (n & a & g & o & -> & _)%get_user_input_Some. simpl. lia.
Qed.

Lemma main_turn_consumes db inp db' inp' said :
  main_turn db inp = (db', inp', said, Running) →
  (length inp' < length inp)%nat.
Proof.
  unfold main_turn. destruct inp as [|c rest]; [done|].
  destruct (py_int (VStr c)) as [choice|]; [|intros [= <- <- <-]; simpl; lia].
  repeat case_decide.
  - destruct (get_user_input rest) as [[d r]|] eqn:E;
      intros [= <- <- <-]; simpl; [|lia].
    apply get_user_input_shorter in E. lia.
  - destruct (get_search_criteria rest) as [[[[[k v]|] r] said0]|] eqn:E.
    + destruct (get_user_input r) as [[d r']|] eqn:E';
        intros [= <- <- <-]; simpl; [|lia].
      apply get_search_criteria_shorter in E.
      apply get_user_input_shorter in E'. lia.
    + intros [= <- <- <-]. apply get_search_criteria_shorter in E. simpl. lia.
    + intros [= <- <- <-]. simpl. lia.
  - destruct (get_search_criteria rest) as [[[[[k v]|] r] said0]|] eqn:E;
      intros [= <- <- <-]; simpl;
      [apply get_search_criteria_shorter in E
      |apply get_search_criteria_shorter in E |]; lia.
  - destruct (get_search_criteria rest) as [[[[[k v]|] r] said0]|] eqn:E;
      intros [= <- <- <-]; simpl;
      [apply get_search_criteria_shorter in E
      |apply get_search_criteria_shorter in E |]; lia.
  - intros [= <- <- <-]. simpl. lia.
  - done.
  - intros [= <- <- <-]. simpl. lia.
Qed.

Lemma main_loop_stops fuel db inp :
  (length inp < fuel)%nat → (main_loop fuel db inp).2 ≠ Running.
Proof.
  revert db inp. induction fuel as [|fuel IH]; intros db inp Hlt; [lia|].
  simpl. destruct (main_turn db inp) as [[[db' inp'] said] st] eqn:E.
  destruct st; [|done..].
  apply main_turn_consumes in E.
  specialize (IH db' inp' ltac:(lia)).
  by destruct (main_loop fuel db' inp') as [[db'' said'] st'].
Qed.

Lemma main_loop_more fuel db inp :
  (length inp < fuel)%nat → main_loop (S fuel) db inp = main_loop fuel db inp.
Proof.
  revert db inp. induction fuel as [|fuel IH]; intros db inp Hlt; [lia|].
  change (main_loop (S (S fuel)) db inp)
    with (let '(db', inp', said, st) := main_turn db inp in
          match st with
          | Running =>
              let '(db'', said', st') := main_loop (S fuel) db' inp' in
              (db'', said ++ said', st')
          | _ => (db', said, st)
          end).
  change (main_loop (S fuel) db inp)
    with (let '(db', inp', said, st) := main_turn db inp in
          match st with
          | Running =>
              let '(db'', said', st') := main_loop fuel db' inp' in
              (db'', said ++ said', st')
          | _ => (db', said, st)
          end).
  destruct (main_turn db inp) as [[[db' inp'] said] st] eqn:E.
  destruct st; [|done..].
  apply main_turn_consumes in E. by rewrite IH by lia.
Qed.

(** The loop of [main] ends on every input, by the exit command or by the
    end of the input, and turns beyond one more than the number of lines
    change nothing. *)
Theorem main_loop_enough (fuel : nat) (db : UserDatabase) (inp : list string) :
  (length inp < fuel)%nat →
  (main_loop fuel db inp).2 ≠ Running
  ∧ main_loop fuel db inp = main_loop (S (length inp)) db inp.
Proof.
  intros Hlt. split; [by apply main_loop_stops|].
  induction fuel as [|fuel IH]; [lia|].
  destruct (decide (fuel = length inp)) as [->|Hne]; [done|].
  rewrite main_loop_more by lia. apply IH. lia.
Qed.

Lemma main_loop_enough_witness :
  (main_loop 10 init ["1"; "Alice"; "30"; "F"; "Engineer"; "6"; "5"]).2 ≠ Running.
Proof.
  apply (main_loop_enough 10 init). simpl. lia.
Defined.

Lemma main_turn_ops db inp :
  ∃ ops, Forall shell_op ops ∧ (main_turn db inp).1.1.1 = foldl step db ops.
Proof.
  assert (∃ ops, Forall shell_op ops ∧ db = foldl step db ops) as Hnil.
  { exists []. by split. }
  unfold main_turn. destruct inp as [|c rest]; [done|].
  destruct (py_int (VStr c)) as [choice|]; [|done].
  repeat case_decide; try done.
  - destruct (get_user_input rest) as [[d r]|] eqn:E; [|done].
    apply get_user_input_Some in E as (n & a & g & o & -> & ->). simpl.
    eexists [Create _ _ _ _]. split; [|done].
    apply Forall_singleton. by eexists.
  - destruct (get_search_criteria rest) as [[[[[k v]|] r] said0]|] eqn:E;
      [|done..].
    destruct (get_user_input r) as [[d r']|] eqn:E'; [|done].
    apply get_search_criteria_Some in E as (_ & c0 & v0 & ch & _ & _ & _ & _ & Hk & _).
    apply get_user_input_Some in E' as (n & a & g & o & -> & ->). simpl.
    eexists [Update _ _ _]. split; [|done].
    apply Forall_singleton. by split.
  - destruct (get_search_criteria rest) as [[[[[k v]|] r] said0]|] eqn:E;
      [|done..].
    apply get_search_criteria_Some in E as (_ & c0 & v0 & ch & _ & _ & _ & _ & Hk & _).
    simpl. eexists [Delete _ _]. split; [|done]. by apply Forall_singleton.
  - by destruct (get_search_criteria rest) as [[[[[k v]|] r] said0]|].
Qed.

Lemma main_loop_ops fuel db inp :
  ∃ ops, Forall shell_op ops ∧ (main_loop fuel db inp).1.1 = foldl step db ops.
Proof.
  revert db inp. induction fuel as [|fuel IH]; intros db inp; simpl.
  - exists []. by split.
  - destruct (main_turn_ops db inp) as (ops & Hops & Heq).
    destruct (main_turn db inp) as [[[db' inp'] said] st]. simpl in Heq.
    destruct st; [|by exists ops..].
    destruct (IH db' inp') as (ops' & Hops' & Heq').
    destruct (main_loop fuel db' inp') as [[db'' said'] st']. simpl in *.
    exists (ops ++ ops'). split; [by apply Forall_app|].
    by rewrite foldl_app, <- Heq.
Qed.

Lemma shell_op_keeps_srno o : shell_op o → keeps_srno o.
Proof.
  destruct o as [| k v nd |]; simpl; [done| |done].
  intros [_ ->]. repeat (apply not_elem_of_cons; split; [done|]).
  apply not_elem_of_nil.
Qed.

(** Whatever is typed, the store that [main] ends with is the store of a
    sequence of store operations of the shell's kind: searches go by a
    field of the menu, and an update's dictionary has the keys name, age,
    gender and occupation, never the identifier. *)
Theorem main_runs_ops (inp : list string) :
  ∃ ops, Forall shell_op ops ∧ (main inp).1.1 = run ops.
Proof. apply main_loop_ops. Qed.

(** Whatever is typed, in the store that [main] ends with every key of the
    index leads to a record that carries that key as its identifier. *)
Theorem main_index_sound (inp : list string) (k : Z) (l : loc) :
  srno_index (main inp).1.1 !! k = Some l →
  ∃ u, heap (main inp).1.1 !! l = Some u ∧ srno u = VInt k.
Proof.
  destruct (main_loop_ops (S (length inp)) init inp) as (ops & Hops & Heq).
  unfold main. rewrite Heq. apply index_sound_foldl; [|exact index_sound_init].
  eapply Forall_impl; [exact Hops|]. apply shell_op_keeps_srno.
Qed.

Lemma main_index_sound_witness :
  ∃ u, heap (main ["1"; "Alice"; "30"; "F"; "Engineer";
                   "2"; "2"; "alice"; "Alicia"; "31"; "F"; "Pilot"; "6"]).1.1
         !! 0%nat = Some u
       ∧ srno u = VInt 1.
Proof.
  apply (main_index_sound _ 1 0%nat). reflexivity.
Defined.

(** The shell reports a create as added also when the store has rejected
    it: with a malformed age the turn leaves the store unchanged and
    reports [EntryAdded]. *)
Theorem main_turn_reports_rejected_add (db : UserDatabase)
    (c n a g o : string) (rest : list string) :
  py_int (VStr c) = Some 1 →
  py_int (VStr (str_strip a)) = None →
  main_turn db (c :: n :: a :: g :: o :: rest) = (db, rest, [EntryAdded], Running).
Proof.
  intros Hc Ha. unfold main_turn. rewrite Hc. rewrite decide_True by done.
  simpl. unfold add_user. simpl in Ha. simpl. by rewrite Ha.
Qed.

Lemma main_turn_reports_rejected_add_witness :
  main_turn init ["1"; "Bob"; "abc"; "M"; "Doctor"; "6"]
  = (init, ["6"], [EntryAdded], Running).
Proof.
  apply main_turn_reports_rejected_add; reflexivity.
Defined.

(** ** Display *)

Lemma asdict_setattr u field val :
  field ∉ declared_fields → asdict (setattr u field val) = asdict u.
Proof.
  intros Hno. unfold setattr.
  repeat case_decide; subst; try done;
    exfalso; apply Hno; unfold declared_fields; repeat ((by left) || right).
Qed.

Lemma update_fields_asdict h l items l' :
  (∀ f, f ∈ items.*1 → f ∉ declared_fields) →
  asdict <$> (update_fields h l items).1 !! l' = asdict <$> h !! l'.
Proof.
  revert h. induction items as [|[field val] rest IH]; intros h Hno; simpl; [done|].
  assert (field ∉ declared_fields) as Hf by (apply Hno; left).
  assert (∀ f, f ∈ rest.*1 → f ∉ declared_fields) as Hrest.
  { intros f Hin. apply Hno. by right. }
  assert (∀ v, asdict <$> alter (λ u, setattr u field v) l h !! l'
               = asdict <$> h !! l') as Halter.
  { intros v. destruct (decide (l = l')) as [->|Hl].
    - rewrite list_lookup_alter_eq. destruct (h !! l'); simpl; [|done].
      by rewrite asdict_setattr.
    - by rewrite list_lookup_alter_ne. }
  case_decide.
  - destruct (py_int val); simpl; [|done]. by rewrite IH, Halter.
  - by rewrite IH, Halter.
Qed.

Lemma display_asdict (h h' : list User) (l : loc) :
  asdict <$> h' !! l = asdict <$> h !! l →
  from_option display_user [] (h' !! l) = from_option display_user [] (h !! l).
Proof.
  destruct (h' !! l) as [u'|], (h !! l) as [u|]; simpl; try done.
  intros H. unfold display_user.
  assert (asdict u' = asdict u) as -> by congruence. done.
Qed.

Lemma display_all_update_user db key value new_data :
  (∀ f, f ∈ new_data.*1 → f ∉ declared_fields) →
  display_all (update_user db key value new_data).1 = display_all db.
Proof.
  intros Hno. unfold update_user.
  destruct (find_user db key value) as [l|]; [|done].
  pose proof (update_fields_asdict (heap db) l new_data) as Ha.
  destruct (update_fields (heap db) l new_data) as [h ok]. simpl in Ha.
  unfold display_all. simpl. destruct (entries db) as [|e es] eqn:Hes; [done|].
  do 2 f_equal. generalize (e :: es). intros es0.
  induction es0 as [|x es0 IH]; simpl; [done|].
  rewrite IH. f_equal. apply display_asdict. by apply Ha.
Qed.

(** In any state that a sequence of operations on instance attributes
    reaches, an update whose dictionary names no declared field, and no
    name that begins with two underscores, changes nothing that
    [display_all] prints: the attributes it sets are not shown. *)
Theorem display_all_ignores_added (ops : list op) (key value : string)
    (new_data : list (string * pyval)) :
  Forall plain_op ops →
  (∀ f, f ∈ new_data.*1 → (f ∉ declared_fields) ∧ class_name f = false) →
  display_all (update_user (run ops) key value new_data).1
  = display_all (run ops).
Proof.
  intros _ Hno. apply display_all_update_user.
  intros f Hf. by apply Hno.
Qed.

Lemma display_all_ignores_added_witness :
  display_all (update_user (run [Create "Alice" (VStr "30") "F" "Engineer"])
                 "name" "alice" [("nickname", VStr "Al")]).1
  = display_all (run [Create "Alice" (VStr "30") "F" "Engineer"]).
Proof.
  apply display_all_ignores_added.
  - by repeat constructor.
  - intros f [->|Hf%elem_of_nil]%elem_of_cons; [|done]. split; [|done].
    unfold declared_fields. repeat (apply not_elem_of_cons; split; [done|]).
    apply not_elem_of_nil.
Defined.



(** ** Finding a record by its printed identifier *)

Lemma digit_of_pretty_N_char (x : N) :
  (x < 10)%N → digit_of (pretty_N_char x) = Some (Z.of_N x)
  ∧ int_space (pretty_N_char x) = false
  ∧ Ascii.eqb (pretty_N_char x) "-" = false
  ∧ Ascii.eqb (pretty_N_char x) "+" = false.
Proof.
  intros H.
  assert (x = 0 ∨ x = 1 ∨ x = 2 ∨ x = 3 ∨ x = 4 ∨ x = 5 ∨ x = 6 ∨ x = 7
          ∨ x = 8 ∨ x = 9)%N as Hx by lia.
  repeat (destruct Hx as [->|Hx]; [by vm_compute|]). subst. by vm_compute.
Qed.

(** The characters that [pretty_N_go] puts in front of its accumulator
    are decimal digits, as many as the number needs, that read back as the
    number. *)
Lemma pretty_N_go_digits (x : N) (s : string) :
  (0 < x)%N →
  ∃ ds, list_ascii_of_string (pretty_N_go x s) = ds ++ list_ascii_of_string s
    ∧ ds ≠ []
    ∧ Forall (λ c, is_Some (digit_of c) ∧ int_space c = false
                   ∧ Ascii.eqb c "-" = false ∧ Ascii.eqb c "+" = false) ds
    ∧ 10 ^ (Z.of_nat (length ds) - 1) ≤ Z.of_N x
    ∧ ∀ acc b rest,
        digits acc b (ds ++ rest)
        = digits (acc * 10 ^ Z.of_nat (length ds) + Z.of_N x) true rest.
Proof.
  revert s. induction (N.lt_wf_0 x) as [x _ IH]. intros s Hx.
  rewrite pretty_N_go_step by done.
  destruct (digit_of_pretty_N_char (x `mod` 10)%N) as (Hd & Hsp & Hm & Hp).
  { by apply N.mod_lt. }
  assert (Z.of_N x = 10 * Z.of_N (x `div` 10) + Z.of_N (x `mod` 10)) as Hx'.
  { pose proof (N.div_mod x 10 ltac:(done)) as Hdm. lia. }
  destruct (decide (x `div` 10 = 0)%N) as [Hz|Hnz].
  - rewrite Hz, pretty_N_go_0. exists [pretty_N_char (x `mod` 10)%N].
    rewrite Hz in Hx'. repeat split; [done| | |].
    + apply Forall_singleton. rewrite Hd. by repeat split.
    + simpl. lia.
    + intros acc b rest. simpl. rewrite Hd. f_equal.
      change (10 ^ Z.of_nat 1) with 10. lia.
  - assert (x `div` 10 < x)%N as Hlt by (apply N.div_lt; lia).
    assert (0 < x `div` 10)%N as Hpos by by apply N.neq_0_lt_0.
    destruct (IH (x `div` 10)%N Hlt (String (pretty_N_char (x `mod` 10)%N) s) Hpos)
      as (ds & Hds & Hne & Hall & Hlow & Hval).
    exists (ds ++ [pretty_N_char (x `mod` 10)%N]). repeat split.
    + rewrite Hds. simpl. by rewrite <- app_assoc.
    + by destruct ds.
    + apply Forall_app. split; [done|]. apply Forall_singleton.
      rewrite Hd. by repeat split.
    + rewrite length_app. simpl.
      replace (Z.of_nat (length ds + 1) - 1) with (Z.succ (Z.of_nat (length ds) - 1))
        by lia.
      rewrite Z.pow_succ_r.
      * pose proof (N2Z.is_nonneg (x `mod` 10)) as Hnn.
        revert Hlow Hx' Hnn.
        generalize (Z.of_N (x `div` 10)), (Z.of_N (x `mod` 10)), (Z.of_N x),
          (10 ^ (Z.of_nat (length ds) - 1)).
        intros. lia.
      * destruct ds; [done | simpl; lia].
    + intros acc b rest. rewrite <- app_assoc. simpl. rewrite Hval. simpl.
      rewrite Hd. f_equal. rewrite length_app. simpl.
      rewrite Nat2Z.inj_add, Z.pow_add_r by lia.
      change (10 ^ Z.of_nat 1) with 10. rewrite Hx'. ring.
Qed.

Lemma int_strip_no_space (cs : list ascii) :
  Forall (λ c, int_space c = false) cs → int_strip cs = cs.
Proof.
  intros Hall. unfold int_strip.
  assert (∀ xs, Forall (λ c, int_space c = false) xs → int_lstrip xs = xs) as Hl.
  { intros [|x xs] Hxs; [done|]. simpl.
    apply Forall_cons in Hxs as [-> _]. done. }
  rewrite (Hl cs) by done. rewrite Hl by by apply Forall_rev.
  apply rev_involutive.
Qed.

Lemma digit_count_digits (ds : list ascii) :
  Forall (λ c, is_Some (digit_of c)) ds →
  digit_count ds = Z.of_nat (length ds)
  ∧ digit_count ("-"%char :: ds) = Z.of_nat (length ds).
Proof.
  intros Hall. unfold digit_count.
  assert (filter (λ c, is_Some (digit_of c)) ds = ds) as Hf.
  { induction Hall as [|c ds Hc Hds IH]; [done|].
    by rewrite filter_cons_True, IH. }
  rewrite filter_cons_False by (by intros [? ?]). by rewrite Hf.
Qed.

Lemma int_of_str_pretty_N_go (x : N) :
  (0 < x)%N → Z.of_N x < 10 ^ int_max_str_digits →
  int_of_str (pretty_N_go x "") = Some (Z.of_N x)
  ∧ int_of_str ("-" +:+ pretty_N_go x "") = Some (- Z.of_N x).
Proof.
  intros Hx Hmax.
  destruct (pretty_N_go_digits x "" Hx) as (ds & Hds & Hne & Hall & Hlow & Hval).
  simpl in Hds. rewrite app_nil_r in Hds.
  assert (Forall (λ c, int_space c = false) ds) as Hsp.
  { eapply Forall_impl; [exact Hall|]. by intros c (_ & ? & _). }
  assert (Forall (λ c, is_Some (digit_of c)) ds) as Hdig.
  { eapply Forall_impl; [exact Hall|]. by intros c (? & _). }
  destruct (digit_count_digits ds Hdig) as [Hc1 Hc2].
  assert (Z.of_nat (length ds) ≤ int_max_str_digits) as Hlen.
  { assert (Z.of_nat (length ds) - 1 < int_max_str_digits); [|lia].
    apply (Z.pow_lt_mono_r_iff 10); [lia | done | lia]. }
  specialize (Hval 0 false []). rewrite app_nil_r in Hval. simpl in Hval.
  unfold int_of_str. split.
  - rewrite Hds, int_strip_no_space by done. cbv zeta.
    rewrite Hc1. rewrite (proj2 (Z.ltb_ge _ _)) by done.
    destruct ds as [|c cs]; [done|].
    apply Forall_cons in Hall as [(_ & _ & -> & ->) _]. by rewrite Hval.
  - change (list_ascii_of_string ("-" +:+ pretty_N_go x ""))
      with ("-"%char :: list_ascii_of_string (pretty_N_go x "")).
    rewrite Hds.
    rewrite (int_strip_no_space ("-"%char :: ds)) by by apply Forall_cons.
    cbv zeta. rewrite Hc2. rewrite (proj2 (Z.ltb_ge _ _)) by done.
    simpl. by rewrite Hval.
Qed.

Lemma py_int_py_str (k : Z) :
  Z.abs k < 10 ^ int_max_str_digits →
  py_int (VStr (py_str (VInt k))) = Some k.
Proof.
  intros Hk. simpl. destruct k as [|p|p]; [done|..].
  - change (pretty (Z.pos p)) with (pretty (N.pos p)).
    unfold pretty, pretty_N. rewrite decide_False by done.
    by destruct (int_of_str_pretty_N_go (N.pos p)) as [-> _].
  - change (pretty (Z.neg p)) with ("-" +:+ pretty (N.pos p)).
    unfold pretty, pretty_N. rewrite decide_False by done.
    by destruct (int_of_str_pretty_N_go (N.pos p)) as [_ ->].
Qed.

(** A search by identifier for the decimal text of an integer within the
    interpreter's limit of digits, as [display_user] prints it, answers
    what the index holds under that integer; in particular, right after a
    successful create the new record is found by its printed identifier. *)
Theorem find_user_printed_srno (db : UserDatabase) :
  (∀ k, Z.abs k < 10 ^ int_max_str_digits →
     find_user db "srno" (py_str (VInt k)) = srno_index db !! k)
  ∧ (∀ n a g oc z, py_int a = Some z →
       _get_next_srno db < 10 ^ int_max_str_digits →
       ∃ l u, heap (add_user db n a g oc).1 !! l = Some u
         ∧ u = mkUser (VInt (_get_next_srno db)) (VStr n) (VInt z)
                      (VStr g) (VStr oc) ∅
         ∧ find_user (add_user db n a g oc).1 "srno" (py_str (srno u)) = Some l).
Proof.
  assert (∀ db0 k, Z.abs k < 10 ^ int_max_str_digits →
            find_user db0 "srno" (py_str (VInt k)) = srno_index db0 !! k)
    as Hfind.
  { intros db0 k Hk. unfold find_user. rewrite decide_True by done.
    by rewrite py_int_py_str. }
  split; [apply Hfind|].
  intros n a g oc z Hz Hmax. eexists (length (heap db)), _.
  split; [|split; [done|]].
  - unfold add_user. rewrite Hz. simpl.
    rewrite lookup_app_r by lia. by rewrite Nat.sub_diag.
  - cbn [srno]. rewrite Hfind by (unfold _get_next_srno in *; lia).
    unfold add_user. rewrite Hz. simpl.
    by rewrite lookup_insert_eq.
Qed.

Lemma find_user_printed_srno_witness :
  ∃ l u, heap (add_user (run [Create "Alice" (VStr "30") "F" "Engineer"])
                 "Bob" (VStr "25") "M" "Doctor").1 !! l = Some u
    ∧ find_user (add_user (run [Create "Alice" (VStr "30") "F" "Engineer"])
                   "Bob" (VStr "25") "M" "Doctor").1 "srno" (py_str (srno u))
      = Some l.
Proof.
  destruct (proj2 (find_user_printed_srno
                     (run [Create "Alice" (VStr "30") "F" "Engineer"]))
              "Bob" (VStr "25") "M" "Doctor" 25 eq_refl) as (l & u & Hu & _ & Hf).
  - apply Z.ltb_lt. vm_compute. reflexivity.
  - by exists l, u.
Defined.
